(** * SafeRoute: the route screen of [App.tsx]

    A shallow embedding of the one component of the application: the five
    [useState] cells, the asynchronous handler [getRoute], the framing
    helper [initialRegionFor] and the part of the rendered tree that is
    derived from the stored route result.

    - JavaScript values that come out of [res.json()] are [json] terms;
      numbers are the rationals their literals denote. The component never
      computes with them: the [Math.round] of the summary card belongs to
      the platform, as does the printing of its result, and both are kept
      symbolic.
    - Strings are byte strings (UTF-8), so the en dash of the error
      template is three bytes long.
    - [getRoute] is an [async] function.  It is embedded as a term of a
      small free monad, [Async]: state setters, [throw], and one node per
      [await].  A scheduler runs such terms one synchronous segment at a
      time, the way the JavaScript event loop does. *)

From Stdlib Require Import String Ascii ZArith NArith QArith List Bool Lia.
From Stdlib Require Import DecimalString.
Import ListNotations.

Open Scope list_scope.
Open Scope string_scope.

#[local] Set Warnings "-register-all".

(* ================================================================== *)
(** ** Values *)

(** What [JSON.parse] can produce. Objects keep their members in order. *)
Inductive json : Type :=
| JNull
| JBool (b : bool)
| JNumber (q : Q)
| JString (s : string)
| JArray (items : list json)
| JObject (members : list (string * json)).

(** The text [JSON.stringify v] of a value; the serialiser belongs to the
    platform, so the text is kept as the value it was made from. *)
Inductive json_text : Type :=
| JSON_stringify (v : json).

(** A thrown value, seen through the only thing [getRoute] reads from it:
    [e?.message].  [None] stands for a thrown value without a message. *)
Record exn : Type := mkExn { message : option string }.

(** [new Error(msg)] *)
Definition Error (msg : string) : exn := mkExn (Some msg).

(** [a || b] on a possibly missing string: the empty string is falsy. *)
Definition or_else (a : option string) (b : string) : string :=
  match a with
  | Some (String c rest) => String c rest
  | Some EmptyString => b
  | None => b
  end.

(** Property read [o.k] on a parsed object, [None] for [undefined]. *)
Fixpoint assoc (k : string) (members : list (string * json)) : option json :=
  match members with
  | [] => None
  | (k', v) :: rest => if String.eqb k k' then Some v else assoc k rest
  end.

Definition get_prop (v : json) (k : string) : option json :=
  match v with
  | JObject members => assoc k members
  | _ => None
  end.

Definition keys (v : json) : list string :=
  match v with
  | JObject members => map fst members
  | _ => []
  end.

(** [String(n)] for a status code. *)
Definition string_of_N (n : N) : string :=
  NilEmpty.string_of_uint (N.to_uint n).


(* ================================================================== *)
(** ** The data model of the source (lines 15-29) *)

Record LatLng : Type := mkLatLng { latitude : Q; longitude : Q }.

Record RouteResult : Type := mkRouteResult {
  shortest_distance_m : Q;
  safest_distance_m : Q;
  safest_score : Q;
  shortest_route : list LatLng;
  safest_route : list LatLng
}.

Definition BACKEND_LAN : string := "http://192.168.1.130:8000".
Definition BACKEND_ANDROID_EMULATOR : string := "http://10.0.2.2:8000".

(** [Platform.OS] is passed in. *)
Definition BASE_URL (os : string) : string :=
  if String.eqb os "android" then BACKEND_ANDROID_EMULATOR else BACKEND_LAN.

(** The names of the members of [RouteResult]. *)
Definition required_fields : list string :=
  ["shortest_distance_m"; "safest_distance_m"; "safest_score";
   "shortest_route"; "safest_route"].

Definition has_field (v : json) (k : string) : bool :=
  match get_prop v k with
  | Some _ => true
  | None => false
  end.

Definition has_required_fields (v : json) : bool :=
  forallb (has_field v) required_fields.

(** Reading a parsed value at the types the source casts it to
    ([as RouteResult]).  The cast itself checks nothing; these functions
    say which values inhabit the interface. *)
Definition asNumber (v : option json) : option Q :=
  match v with
  | Some (JNumber q) => Some q
  | _ => None
  end.

Definition asLatLng (v : json) : option LatLng :=
  match asNumber (get_prop v "latitude"), asNumber (get_prop v "longitude") with
  | Some la, Some lo => Some (mkLatLng la lo)
  | _, _ => None
  end.

Fixpoint asLatLngs (items : list json) : option (list LatLng) :=
  match items with
  | [] => Some []
  | v :: rest =>
      match asLatLng v, asLatLngs rest with
      | Some c, Some cs => Some (c :: cs)
      | _, _ => None
      end
  end.

Definition asRoute (v : option json) : option (list LatLng) :=
  match v with
  | Some (JArray items) => asLatLngs items
  | _ => None
  end.

Definition asRouteResult (v : json) : option RouteResult :=
  match asNumber (get_prop v "shortest_distance_m"),
        asNumber (get_prop v "safest_distance_m"),
        asNumber (get_prop v "safest_score"),
        asRoute (get_prop v "shortest_route"),
        asRoute (get_prop v "safest_route") with
  | Some sd, Some fd, Some sc, Some sr, Some fr =>
      Some (mkRouteResult sd fd sc sr fr)
  | _, _, _, _, _ => None
  end.

(* ================================================================== *)
(** ** Component state (lines 32-36) *)

Record AppState : Type := mkAppState {
  origin : string;
  dest : string;
  result : json;            (* RouteResult | null, as stored at run time *)
  loading : bool;
  err : option string       (* string | null *)
}.

Definition initialState : AppState :=
  mkAppState "UC Irvine" "Irvine Spectrum Center" JNull false None.

Definition setOrigin (t : string) (s : AppState) : AppState :=
  mkAppState t (dest s) (result s) (loading s) (err s).
Definition setDest (t : string) (s : AppState) : AppState :=
  mkAppState (origin s) t (result s) (loading s) (err s).
Definition setResult (v : json) (s : AppState) : AppState :=
  mkAppState (origin s) (dest s) v (loading s) (err s).
Definition setLoading (b : bool) (s : AppState) : AppState :=
  mkAppState (origin s) (dest s) (result s) b (err s).
Definition setErr (e : option string) (s : AppState) : AppState :=
  mkAppState (origin s) (dest s) (result s) (loading s) e.

(** The tagged variant the specification reads off the three cells. *)
Inductive FetchState : Type :=
| Idle
| Loading
| Success (r : json)
| Failure (msg : string).

Definition is_null (v : json) : bool :=
  match v with
  | JNull => true
  | _ => false
  end.

Definition fetchState (s : AppState) : option FetchState :=
  match loading s, is_null (result s), err s with
  | false, true, None => Some Idle
  | true, true, None => Some Loading
  | false, false, None => Some (Success (result s))
  | false, true, Some msg => Some (Failure msg)
  | _, _, _ => None
  end.

(* ================================================================== *)
(** ** The network, as [getRoute] sees it *)

Record Request : Type := mkRequest {
  url : string;
  method : string;
  headers : list (string * string);
  body : json_text
}.

(** A [Response] object: its two data properties, and what the promises
    returned by its [text()] and [json()] methods settle with. *)
Record Response : Type := mkResponse {
  status : N;
  statusText : string;
  text : exn + string;
  json_body : exn + json
}.

(** [res.ok] *)
Definition ok (res : Response) : bool :=
  (200 <=? status res)%N && (status res <=? 299)%N.

(* ================================================================== *)
(** ** Asynchronous programs *)

Inductive setter : Type :=
| SetErr (e : option string)
| SetResult (v : json)
| SetLoading (b : bool).

Definition apply_setter (a : setter) (s : AppState) : AppState :=
  match a with
  | SetErr e => setErr e s
  | SetResult v => setResult v s
  | SetLoading b => setLoading b s
  end.

(** One node per effect; the three [Await] nodes are the suspension points
    of [getRoute], each with the continuation that receives the settled
    promise. *)
Inductive Async (A : Type) : Type :=
| Ret (a : A)
| Throw (e : exn)
| Act (a : setter) (k : Async A)
| AwaitFetch (req : Request) (k : exn + Response -> Async A)
| AwaitText (res : Response) (k : exn + string -> Async A)
| AwaitJson (res : Response) (k : exn + json -> Async A).

Arguments Ret {A} a.
Arguments Throw {A} e.
Arguments Act {A} a k.
Arguments AwaitFetch {A} req k.
Arguments AwaitText {A} res k.
Arguments AwaitJson {A} res k.

Fixpoint bind {A B : Type} (p : Async A) (f : A -> Async B) : Async B :=
  match p with
  | Ret a => f a
  | Throw e => Throw e
  | Act a k => Act a (bind k f)
  | AwaitFetch req k => AwaitFetch req (fun r => bind (k r) f)
  | AwaitText res k => AwaitText res (fun r => bind (k r) f)
  | AwaitJson res k => AwaitJson res (fun r => bind (k r) f)
  end.

Declare Scope async_scope.
Delimit Scope async_scope with async.
Notation "x <- p ;; q" := (bind p (fun x => q))
  (at level 61, p at next level, right associativity) : async_scope.
Notation "p ;; q" := (bind p (fun _ => q))
  (at level 61, right associativity) : async_scope.
Open Scope async_scope.

(** [try { p } catch (e) { h e }] *)
Fixpoint try_catch {A : Type} (p : Async A) (h : exn -> Async A) : Async A :=
  match p with
  | Ret a => Ret a
  | Throw e => h e
  | Act a k => Act a (try_catch k h)
  | AwaitFetch req k => AwaitFetch req (fun r => try_catch (k r) h)
  | AwaitText res k => AwaitText res (fun r => try_catch (k r) h)
  | AwaitJson res k => AwaitJson res (fun r => try_catch (k r) h)
  end.

(** [try { p } finally { f }]: [f] runs on both exits, and the exit of [p]
    is kept. *)
Fixpoint finally {A : Type} (p : Async A) (f : Async unit) : Async A :=
  match p with
  | Ret a => f ;; Ret a
  | Throw e => f ;; Throw e
  | Act a k => Act a (finally k f)
  | AwaitFetch req k => AwaitFetch req (fun r => finally (k r) f)
  | AwaitText res k => AwaitText res (fun r => finally (k r) f)
  | AwaitJson res k => AwaitJson res (fun r => finally (k r) f)
  end.

Definition try_catch_finally {A : Type}
  (p : Async A) (h : exn -> Async A) (f : Async unit) : Async A :=
  finally (try_catch p h) f.

Definition call (a : setter) : Async unit := Act a (Ret tt).

(** [await promise]: a rejection is thrown at the [await]. *)
Definition settled {A : Type} (r : exn + A) : Async A :=
  match r with
  | inl e => Throw e
  | inr a => Ret a
  end.

Definition await_fetch (req : Request) : Async Response := AwaitFetch req settled.
Definition await_text (res : Response) : Async string := AwaitText res settled.
Definition await_json (res : Response) : Async json := AwaitJson res settled.

(* ================================================================== *)
(** ** [getRoute] (lines 38-68) *)

(** The object literal of lines 47-53. *)
Definition routeQuery (origin dest : string) : json :=
  JObject [("origin", JString origin);
           ("destination", JString dest);
           ("alpha", JNumber 1.5);
           ("beta", JNumber 0.7);
           ("use_weather", JBool false)].

Definition routeRequest (os origin dest : string) : Request :=
  mkRequest (BASE_URL os ++ "/route")
            "POST"
            [("Content-Type", "application/json")]
            (JSON_stringify (routeQuery origin dest)).

(** The template literal of line 58. *)
Definition protocolMessage (res : Response) (txt : string) : string :=
  string_of_N (status res) ++ " " ++ statusText res ++ " – " ++ txt.

(** The body of the [try] block, lines 44-62. *)
Definition getRoute_try (os origin dest : string) : Async unit :=
  res <- await_fetch (routeRequest os origin dest) ;;
  (if negb (ok res)
   then txt <- await_text res ;;
        Throw (Error (protocolMessage res txt))
   else Ret tt) ;;
  data <- await_json res ;;
  call (SetResult data).

(** [origin] and [dest] are the values the closure captured at the render
    that created it. *)
Definition getRoute (os origin dest : string) : Async unit :=
  call (SetErr None) ;;
  call (SetResult JNull) ;;
  call (SetLoading true) ;;
  try_catch_finally
    (getRoute_try os origin dest)
    (fun e => call (SetErr (Some (or_else (message e) "Network error"))))
    (call (SetLoading false)).

(* ================================================================== *)
(** ** Running asynchronous programs *)

(** One synchronous segment: the setters are applied in order until the
    program returns, throws, or reaches an [await].  The result is the
    state in which the segment ends, where the handler returns to the
    event loop.  The states the cells pass through on the way, one per
    setter call, are those of [segment_states] below: a root that batches
    the updates of a segment renders only the last of them, a root that
    does not renders each one. *)
Fixpoint run_segment {A : Type} (p : Async A) (s : AppState)
  : AppState * Async A :=
  match p with
  | Act a k => run_segment k (apply_setter a s)
  | _ => (s, p)
  end.


(** A whole call with nothing interleaved: [net] is what the promise of
    [fetch] settles with, and a response answers its own body reads. *)
Fixpoint exec {A : Type} (net : exn + Response) (p : Async A) (s : AppState)
  : AppState * (exn + A) :=
  match p with
  | Ret a => (s, inr a)
  | Throw e => (s, inl e)
  | Act a k => exec net k (apply_setter a s)
  | AwaitFetch _ k => exec net (k net) s
  | AwaitText res k => exec net (k (text res)) s
  | AwaitJson res k => exec net (k (json_body res)) s
  end.

(** The state one press of the button leaves behind once its call has
    settled. *)
Definition lifecycle (os : string) (net : exn + Response) (s : AppState)
  : AppState :=
  fst (exec net (getRoute os (origin s) (dest s)) s).

(** The state while that call waits for the network, and the request it
    has sent. *)
Definition submitted (os : string) (s : AppState) : AppState * option Request :=
  match run_segment (getRoute os (origin s) (dest s)) s with
  | (s', AwaitFetch req _) => (s', Some req)
  | (s', _) => (s', None)
  end.

(* ------------------------------------------------------------------ *)
(** *** The event loop *)

(** A session: the component state and the calls of [getRoute] that are
    suspended at an [await], each under the number it was started with. *)
Record Session : Type := mkSession {
  platform : string;
  app : AppState;
  inflight : list (nat * Async unit);
  next_id : nat
}.

Definition initialSession (os : string) : Session :=
  mkSession os initialState [] 0.

Inductive event : Type :=
| ChangeOrigin (t : string)                       (* onChangeText={setOrigin} *)
| ChangeDest (t : string)                         (* onChangeText={setDest} *)
| Press                                           (* onPress={getRoute} *)
| FetchSettled (id : nat) (net : exn + Response)  (* the promise of fetch *)
| BodySettled (id : nat).                         (* res.text() / res.json() *)

Definition is_suspended {A : Type} (p : Async A) : bool :=
  match p with
  | AwaitFetch _ _ | AwaitText _ _ | AwaitJson _ _ => true
  | _ => false
  end.

Fixpoint find_call (id : nat) (calls : list (nat * Async unit))
  : option (Async unit) :=
  match calls with
  | [] => None
  | (i, p) :: rest => if Nat.eqb id i then Some p else find_call id rest
  end.

Fixpoint remove_call (id : nat) (calls : list (nat * Async unit))
  : list (nat * Async unit) :=
  match calls with
  | [] => []
  | (i, p) :: rest =>
      if Nat.eqb id i then rest else (i, p) :: remove_call id rest
  end.

(** Run [p] as the next segment of call [id]; a call that is suspended
    again stays in flight, a finished one is dropped. *)
Definition resume (id : nat) (p : Async unit) (x : Session) : Session :=
  let '(s', p') := run_segment p (app x) in
  let others := remove_call id (inflight x) in
  mkSession (platform x) s'
            (if is_suspended p' then (others ++ [(id, p')])%list else others)
            (next_id x).

(** What each event does when its handler runs. *)
Definition step (x : Session) (e : event) : option Session :=
  match e with
  | ChangeOrigin t =>
      Some (mkSession (platform x) (setOrigin t (app x)) (inflight x) (next_id x))
  | ChangeDest t =>
      Some (mkSession (platform x) (setDest t (app x)) (inflight x) (next_id x))
  | Press =>
      Some (resume (next_id x)
                   (getRoute (platform x) (origin (app x)) (dest (app x)))
                   (mkSession (platform x) (app x) (inflight x) (S (next_id x))))
  | FetchSettled id net =>
      match find_call id (inflight x) with
      | Some (AwaitFetch _ k) => Some (resume id (k net) x)
      | _ => None
      end
  | BodySettled id =>
      match find_call id (inflight x) with
      | Some (AwaitText res k) => Some (resume id (k (text res)) x)
      | Some (AwaitJson res k) => Some (resume id (k (json_body res)) x)
      | _ => None
      end
  end.

(** The button is rendered with [disabled={loading}] (line 109): through
    the screen, [Press] reaches its handler only while nothing is loading. *)
Definition enabled (x : Session) (e : event) : bool :=
  match e with
  | Press => negb (loading (app x))
  | _ => true
  end.

Definition ui_step (x : Session) (e : event) : option Session :=
  if enabled x e then step x e else None.

Fixpoint run_with (f : Session -> event -> option Session)
  (x : Session) (es : list event) : option Session :=
  match es with
  | [] => Some x
  | e :: rest =>
      match f x e with
      | Some x' => run_with f x' rest
      | None => None
      end
  end.

(** Handlers called in any order the event loop allows. *)
Definition run : Session -> list event -> option Session := run_with step.

(** What a user can do through the screen. *)
Definition ui_run : Session -> list event -> option Session := run_with ui_step.

(** The events that carry call [id] from its [fetch] to its end. *)
Definition settle (id : nat) (net : exn + Response) : list event :=
  match net with
  | inl _ => [FetchSettled id net]
  | inr _ => [FetchSettled id net; BodySettled id]
  end.

(* ================================================================== *)
(** ** The presenter (lines 70-81 and 83-193) *)

Module Region.
Record t : Type := mk {
  latitude : Q;
  longitude : Q;
  latitudeDelta : Q;
  longitudeDelta : Q
}.
End Region.

(** [coords && coords.length ? coords[0] : { latitude: 33.64, ... }] *)
Definition initialRegionFor (coords : option (list LatLng)) : Region.t :=
  let center :=
    match coords with
    | Some (first :: _) => first
    | Some [] => mkLatLng 33.64 (-117.84)
    | None => mkLatLng 33.64 (-117.84)
    end in
  Region.mk (latitude center) (longitude center) 0.05 0.05.

(** [xs[i]] on an array: [undefined] outside [0 .. length-1]. *)
Definition at_index {A : Type} (xs : list A) (i : Z) : option A :=
  if (i <? 0)%Z then None else nth_error xs (Z.to_nat i).

(** A child of a [<Text>] element: a piece of text, or the number
    [Math.round(x)] that React prints in its place.  Rounding a double and
    printing a JavaScript number are the platform's; the child is kept as
    the call it was made from. *)
Inductive text_child : Type :=
| Str (s : string)
| Math_round (x : Q).

Record Polyline : Type := mkPolyline {
  coordinates : list LatLng;
  strokeColor : string;
  strokeWidth : N;
  lineDashPattern : option (list N)
}.

Record Marker : Type := mkMarker {
  coordinate : option LatLng;     (* [None]: the prop is [undefined] *)
  title : string
}.

Record MapView : Type := mkMapView {
  initialRegion : Region.t;
  polylines : list Polyline;
  markers : list Marker
}.

Record ResultPanel : Type := mkResultPanel {
  cardText : list (list text_child);
  mapView : MapView
}.

Record Screen : Type := mkScreen {
  originValue : string;
  destValue : string;
  buttonTitle : string;
  buttonDisabled : bool;
  loadingOverlay : bool;
  errorText : option string;
  resultPanel : option ResultPanel
}.

(** The two markers of lines 158-164. *)
Definition routeMarkers (r : RouteResult) : list Marker :=
  [mkMarker (at_index (shortest_route r) 0) "Origin";
   mkMarker (at_index (shortest_route r)
                      (Z.of_nat (length (shortest_route r)) - 1))
            "Destination"].

(** The fragment under [result && (...)], lines 127-189. *)
Definition resultPanelFor (r : RouteResult) : ResultPanel :=
  mkResultPanel
    [[Str "🛣 Shortest: "; Math_round (shortest_distance_m r); Str " m"];
     [Str "✅ Safest: "; Math_round (safest_distance_m r); Str " m"];
     [Str "📊 Score: "; Math_round (safest_score r)]]
    (mkMapView
       (initialRegionFor (Some (shortest_route r)))
       [mkPolyline (shortest_route r) "blue" 6 None;
        mkPolyline (safest_route r) "green" 2 (Some [4%N; 4%N])]
       (routeMarkers r)).

(** [err && <Text>{err}</Text>] *)
Definition errorTextFor (e : option string) : option string :=
  match e with
  | Some (String c rest) => Some (String c rest)
  | Some EmptyString => None
  | None => None
  end.

(** The render function at the declared type of the state. *)
Definition screenFor (origin dest : string) (loading : bool)
  (err : option string) (res : option RouteResult) : Screen :=
  mkScreen origin dest
           (if loading then "Finding route..." else "Get Route")
           loading
           loading
           (errorTextFor err)
           (option_map resultPanelFor res).

(** The render function on the stored state.  A stored value that is not
    [null] is read at type [RouteResult]; where it does not inhabit that
    type the tree is left undescribed ([None]). *)
Definition App (s : AppState) : option Screen :=
  match result s with
  | JNull => Some (screenFor (origin s) (dest s) (loading s) (err s) None)
  | v =>
      match asRouteResult v with
      | Some r => Some (screenFor (origin s) (dest s) (loading s) (err s) (Some r))
      | None => None
      end
  end.

(* ================================================================== *)
(** ** Schedules and invariants used in the statements *)

(** All the places where one event can be put into a list of events. *)
Fixpoint insertions (e : event) (es : list event) : list (list event) :=
  match es with
  | [] => [[e]]
  | e' :: rest => (e :: es) :: map (cons e') (insertions e rest)
  end.

(** The last event of a call, and the ones before it. *)
Definition settle_last (id : nat) (net : exn + Response) : event :=
  match net with
  | inl _ => FetchSettled id net
  | inr _ => BodySettled id
  end.

Definition settle_init (id : nat) (net : exn + Response) : list event :=
  match net with
  | inl _ => []
  | inr _ => [FetchSettled id net]
  end.

(** Two overlapping calls, numbered 0 (the first, A) and 1 (the second, B):
    every order of their events in which call 0 ends after call 1 has
    ended. *)
Definition first_ends_last (netA netB : exn + Response) : list (list event) :=
  map (fun es => (es ++ [settle_last 0 netA])%list)
      (match settle_init 0 netA with
       | [] => [settle 1 netB]
       | e :: _ => insertions e (settle 1 netB)
       end).

(** Every [await] of the program is reached in the Loading state, whatever
    the promise settles with, and the program ends, without an uncaught
    exception, in a state that is a variant and is not loading. *)
Fixpoint well_staged (p : Async unit) (s : AppState) : Prop :=
  match p with
  | Ret _ => loading s = false /\ fetchState s <> None
  | Throw _ => False
  | Act a k => well_staged k (apply_setter a s)
  | AwaitFetch _ k =>
      fetchState s = Some Loading /\
      forall r s', fetchState s' = Some Loading -> well_staged (k r) s'
  | AwaitText res k =>
      fetchState s = Some Loading /\
      forall s', fetchState s' = Some Loading -> well_staged (k (text res)) s'
  | AwaitJson res k =>
      fetchState s = Some Loading /\
      forall s', fetchState s' = Some Loading -> well_staged (k (json_body res)) s'
  end.

(** At most one call is in flight; while it is, the state is Loading. *)
Definition consistent (x : Session) : Prop :=
  match inflight x with
  | [] => loading (app x) = false /\ fetchState (app x) <> None
  | [(_, p)] => is_suspended p = true /\ well_staged p (app x)
  | _ :: _ :: _ => False
  end.

(* ------------------------------------------------------------------ *)
(** *** Sample data: the scenarios of the specification *)

Definition point (la lo : Q) : json :=
  JObject [("latitude", JNumber la); ("longitude", JNumber lo)].

Definition sampleRoute : json :=
  JObject [("shortest_distance_m", JNumber 5200);
           ("safest_distance_m", JNumber 5800);
           ("safest_score", JNumber 87);
           ("shortest_route",
            JArray [point 33.6405 (-117.8443); point 33.65 (-117.82);
                    point 33.6501 (-117.7432)]);
           ("safest_route",
            JArray [point 33.6405 (-117.8443); point 33.66 (-117.81);
                    point 33.6501 (-117.7432)])].

(** A result whose shortest route has no point. *)
Definition emptyRoute : json :=
  JObject [("shortest_distance_m", JNumber 0);
           ("safest_distance_m", JNumber 0);
           ("safest_score", JNumber 0);
           ("shortest_route", JArray []);
           ("safest_route", JArray [])].

(** A second read of a body that [json()] has consumed. *)
Definition noBody : exn := Error "Already read".
Definition syntaxError : exn := Error "JSON Parse error: Unexpected token".

(** A 200 response whose body parses to [v]. *)
Definition ok200 (v : json) : exn + Response :=
  inr (mkResponse 200 "OK" (inl noBody) (inr v)).

(** A 500 response with body text [txt]. *)
Definition error500 (txt : string) : exn + Response :=
  inr (mkResponse 500 "Internal Server Error" (inr txt) (inl syntaxError)).

Definition unreachable : exn + Response :=
  inl (Error "Network request failed").

(* ------------------------------------------------------------------ *)
(** *** What a call does, in order *)

(** The effects of a program as they happen: setter calls, the [fetch],
    and the reads of the body. *)
Inductive effect : Type :=
| Called (a : setter)
| Fetched (req : Request)
| ReadText (res : Response)
| ReadJson (res : Response).

(** The effects of one uninterrupted run of [p], with the same answers as
    in [exec]. *)
Fixpoint trace {A : Type} (net : exn + Response) (p : Async A) : list effect :=
  match p with
  | Ret _ => []
  | Throw _ => []
  | Act a k => Called a :: trace net k
  | AwaitFetch req k => Fetched req :: trace net (k net)
  | AwaitText res k => ReadText res :: trace net (k (text res))
  | AwaitJson res k => ReadJson res :: trace net (k (json_body res))
  end.

Definition is_fetch (e : effect) : bool :=
  match e with
  | Fetched _ => true
  | _ => false
  end.

Definition is_read (e : effect) : bool :=
  match e with
  | ReadText _ | ReadJson _ => true
  | _ => false
  end.

(* ------------------------------------------------------------------ *)
(** *** More about sessions *)

(** The events of the two text inputs. *)
Definition is_edit (e : event) : bool :=
  match e with
  | ChangeOrigin _ | ChangeDest _ => true
  | _ => false
  end.

(** The events a user can cause: edits and presses. *)
Definition is_user (e : event) : bool :=
  match e with
  | ChangeOrigin _ | ChangeDest _ | Press => true
  | _ => false
  end.

(** What the edits of [es] do to the component state. *)
Definition edit (s : AppState) (e : event) : AppState :=
  match e with
  | ChangeOrigin t => setOrigin t s
  | ChangeDest t => setDest t s
  | _ => s
  end.

Definition edits (es : list event) (s : AppState) : AppState :=
  fold_left edit es s.

(** The requests that are out and not answered yet. *)
Fixpoint pending_requests (calls : list (nat * Async unit)) : list Request :=
  match calls with
  | [] => []
  | (_, AwaitFetch req _) :: rest => req :: pending_requests rest
  | _ :: rest => pending_requests rest
  end.

(** Every error message the program can store is a non-empty string. *)
Fixpoint tidy (p : Async unit) : Prop :=
  match p with
  | Ret _ => True
  | Throw _ => True
  | Act a k =>
      match a with
      | SetErr (Some msg) => msg <> EmptyString
      | _ => True
      end /\ tidy k
  | AwaitFetch _ k => forall r, tidy (k r)
  | AwaitText _ k => forall r, tidy (k r)
  | AwaitJson _ k => forall r, tidy (k r)
  end.

Definition tidy_session (x : Session) : Prop :=
  err (app x) <> Some EmptyString /\
  forall id p, In (id, p) (inflight x) -> tidy p.

(** The program is at most [n] settlements away from its end. *)
Fixpoint settles_within (n : nat) (p : Async unit) : Prop :=
  match p with
  | Ret _ => True
  | Throw _ => True
  | Act _ k => settles_within n k
  | AwaitFetch _ k =>
      match n with
      | O => False
      | S m => forall r, settles_within m (k r)
      end
  | AwaitText _ k =>
      match n with
      | O => False
      | S m => forall r, settles_within m (k r)
      end
  | AwaitJson _ k =>
      match n with
      | O => False
      | S m => forall r, settles_within m (k r)
      end
  end.

(** The event that answers what the program is waiting for. *)
Definition answer (id : nat) (net : exn + Response) (p : Async unit) : event :=
  match p with
  | AwaitFetch _ _ => FetchSettled id net
  | _ => BodySettled id
  end.

(* ------------------------------------------------------------------ *)
(** *** Every state a session passes through *)




(** The state between the write of a settled call and the
    [setLoading(false)] of its [finally]: still loading, with the new
    result or the new error. *)
Definition transient (s : AppState) : Prop :=
  loading s = true /\
  ((result s <> JNull /\ err s = None) \/ (result s = JNull /\ err s <> None)).

Definition variant_or_transient (s : AppState) : Prop :=
  fetchState s <> None \/ transient s.


(* ================================================================== *)
(** * Properties *)

(** ** Strings *)






Lemma append_nonempty (a : string) (c : ascii) (b : string) :
  a ++ String c b <> EmptyString.
Proof. destruct a; discriminate. Qed.

Lemma or_else_nonempty (a : option string) (b : string) :
  b <> EmptyString -> or_else a b <> EmptyString.
Proof. destruct a as [[|c r]|]; simpl; intros H; try exact H; discriminate. Qed.

Lemma or_else_some (m b : string) : m <> EmptyString -> or_else (Some m) b = m.
Proof. destruct m; [intros H; now elim H | reflexivity]. Qed.

Lemma protocolMessage_nonempty (res : Response) (txt : string) :
  protocolMessage res txt <> EmptyString.
Proof. unfold protocolMessage. apply append_nonempty. Qed.

(** ** One call of [getRoute], run to its end *)

Lemma fetchState_failure (o d msg : string) :
  fetchState (mkAppState o d JNull false (Some msg)) = Some (Failure msg).
Proof. reflexivity. Qed.

Section SingleCall.

Variable os : string.
Variable s : AppState.

(** The state in which a failed call leaves the component. *)
Let failed (msg : string) : AppState :=
  mkAppState (origin s) (dest s) JNull false (Some msg).

(** The four ways through the [try] block that end in the [catch], and the
    one that does not. *)
Lemma lifecycle_rejected (e : exn) :
  lifecycle os (inl e) s = failed (or_else (message e) "Network error").
Proof. reflexivity. Qed.

Lemma lifecycle_protocol (res : Response) (txt : string) :
  ok res = false -> text res = inr txt ->
  lifecycle os (inr res) s = failed (protocolMessage res txt).
Proof.
  intros Hok Htxt. unfold lifecycle. cbn -[or_else protocolMessage].
  rewrite Hok. cbn -[or_else protocolMessage]. rewrite Htxt.
  cbn -[or_else protocolMessage].
  rewrite or_else_some by apply protocolMessage_nonempty. reflexivity.
Qed.

Lemma lifecycle_unread (res : Response) (e : exn) :
  ok res = false -> text res = inl e ->
  lifecycle os (inr res) s = failed (or_else (message e) "Network error").
Proof.
  intros Hok Htxt. unfold lifecycle. simpl. rewrite Hok. simpl. rewrite Htxt.
  reflexivity.
Qed.

Lemma lifecycle_unparsed (res : Response) (e : exn) :
  ok res = true -> json_body res = inl e ->
  lifecycle os (inr res) s = failed (or_else (message e) "Network error").
Proof.
  intros Hok Hv. unfold lifecycle. simpl. rewrite Hok. simpl. rewrite Hv.
  reflexivity.
Qed.

Lemma lifecycle_parsed (res : Response) (v : json) :
  ok res = true -> json_body res = inr v ->
  lifecycle os (inr res) s = mkAppState (origin s) (dest s) v false None.
Proof.
  intros Hok Hv. unfold lifecycle. simpl. rewrite Hok. simpl. rewrite Hv.
  reflexivity.
Qed.

(** A call never ends with an uncaught exception. *)
Lemma getRoute_returns (net : exn + Response) :
  snd (exec net (getRoute os (origin s) (dest s)) s) = inr tt.
Proof.
  destruct net as [e|res]; [reflexivity|].
  simpl. destruct (ok res); simpl.
  - destruct (json_body res); reflexivity.
  - destruct (text res); reflexivity.
Qed.

(** An error is stored only by the [catch]: a call that ends with an
    error has thrown in its [try] block. *)
Lemma failure_has_a_cause (net : exn + Response) (msg : string) :
  err (lifecycle os net s) = Some msg ->
  exists e,
    snd (exec net (getRoute_try os (origin s) (dest s)) (fst (submitted os s)))
    = inl e /\
    msg = or_else (message e) "Network error".
Proof.
  destruct net as [e|res].
  - rewrite lifecycle_rejected. intros H. injection H as <-. now exists e.
  - simpl. destruct (ok res) eqn:Hok; simpl.
    + destruct (json_body res) as [e|v] eqn:Hv; simpl.
      * rewrite (lifecycle_unparsed res e Hok Hv).
        intros H. injection H as <-. now exists e.
      * rewrite (lifecycle_parsed res v Hok Hv). discriminate.
    + destruct (text res) as [e|txt] eqn:Htxt; simpl.
      * rewrite (lifecycle_unread res e Hok Htxt).
        intros H. injection H as <-. now exists e.
      * rewrite (lifecycle_protocol res txt Hok Htxt).
        intros H. injection H as <-. eexists. split; [reflexivity|].
        cbn [message Error]. symmetry.
        apply or_else_some, protocolMessage_nonempty.
Qed.

End SingleCall.


Lemma ok_true_iff (res : Response) :
  ok res = true <-> (200 <= status res <= 299)%N.
Proof.
  unfold ok. rewrite andb_true_iff, !N.leb_le. reflexivity.
Qed.

Lemma has_required_fields_not_null (v : json) :
  has_required_fields v = true -> is_null v = false.
Proof. destruct v; simpl; try reflexivity. discriminate. Qed.

(** ** The request *)

(** C4. Whatever the two input texts are, empty or not, the request that a
    submission sends carries the serialisation of an object with exactly
    the five members origin, destination, alpha, beta and use_weather, in
    that order: the two texts as they stand, 1.5, 0.7 and false. *)
Theorem request_body_is_the_route_query (os : string) (s : AppState) :
  exists req q,
    snd (submitted os s) = Some req /\
    body req = JSON_stringify q /\
    q = JObject [("origin", JString (origin s));
                 ("destination", JString (dest s));
                 ("alpha", JNumber 1.5);
                 ("beta", JNumber 0.7);
                 ("use_weather", JBool false)] /\
    keys q = ["origin"; "destination"; "alpha"; "beta"; "use_weather"] /\
    get_prop q "origin" = Some (JString (origin s)) /\
    get_prop q "destination" = Some (JString (dest s)) /\
    get_prop q "alpha" = Some (JNumber 1.5) /\
    get_prop q "beta" = Some (JNumber 0.7) /\
    get_prop q "use_weather" = Some (JBool false).
Proof.
  exists (routeRequest os (origin s) (dest s)), (routeQuery (origin s) (dest s)).
  repeat split.
Qed.

(** ** Submission *)

(** C7. A submission sets the error and the result to null and the loading
    flag to true before it calls [fetch]: the state in which the request
    goes out, and in which the call waits, is Loading with no result and
    no error, and the screen of that state shows neither. *)
Theorem submission_clears_result_and_error (os : string) (s : AppState) :
  let s' := fst (submitted os s) in
  result s' = JNull /\ err s' = None /\ loading s' = true /\
  fetchState s' = Some Loading /\
  snd (submitted os s) = Some (routeRequest os (origin s) (dest s)) /\
  App s' = Some (screenFor (origin s) (dest s) true None None) /\
  forall x : Session, exists x',
    step x Press = Some x' /\
    result (app x') = JNull /\ err (app x') = None /\ loading (app x') = true.
Proof.
  repeat split.
  intros x. eexists. split; [reflexivity|]. repeat split.
Qed.

(** ** Outcomes *)




(** C10. Whenever the [try] block of a call throws, for a transport, a
    protocol or a decode failure alike, the call ends in Failure with a
    message that is not empty: the message of the thrown value, or
    ["Network error"] when that value has no message or an empty one. *)
Theorem failure_message_is_never_empty
  (os : string) (s : AppState) (net : exn + Response) (e : exn) :
  snd (exec net (getRoute_try os (origin s) (dest s)) (fst (submitted os s)))
  = inl e ->
  exists msg,
    fetchState (lifecycle os net s) = Some (Failure msg) /\
    msg <> EmptyString /\
    msg = or_else (message e) "Network error" /\
    (message e = None \/ message e = Some EmptyString -> msg = "Network error").
Proof.
  intros Hthrown.
  assert (Hend : lifecycle os net s =
                 mkAppState (origin s) (dest s) JNull false
                            (Some (or_else (message e) "Network error"))).
  { destruct net as [e0|res].
    - simpl in Hthrown. injection Hthrown as <-. apply lifecycle_rejected.
    - simpl in Hthrown. destruct (ok res) eqn:Hok; simpl in Hthrown.
      + destruct (json_body res) as [e0|v] eqn:Hv; simpl in Hthrown.
        * injection Hthrown as <-. now apply lifecycle_unparsed.
        * discriminate Hthrown.
      + destruct (text res) as [e0|txt] eqn:Htxt; simpl in Hthrown.
        * injection Hthrown as <-. now apply lifecycle_unread.
        * injection Hthrown as <-.
          rewrite (lifecycle_protocol os s res txt Hok Htxt).
          cbn [message Error].
          rewrite or_else_some by apply protocolMessage_nonempty. reflexivity. }
  exists (or_else (message e) "Network error").
  rewrite Hend. split; [apply fetchState_failure|].
  split; [apply or_else_nonempty; discriminate|].
  split; [reflexivity|].
  intros [-> | ->]; reflexivity.
Qed.

Lemma failure_message_is_never_empty_witness :
  exists msg,
    fetchState (lifecycle "ios" (inl (mkExn None)) initialState)
    = Some (Failure msg) /\
    msg <> EmptyString /\
    msg = "Network error" /\
    (message (mkExn None) = None \/ message (mkExn None) = Some EmptyString ->
     msg = "Network error").
Proof.
  exact (failure_message_is_never_empty
           "ios" initialState (inl (mkExn None)) (mkExn None) eq_refl).
Defined.

(** C6. A successful response whose parsed body has the five members of a
    route result ends the call in Success, and the stored result is the
    parsed value itself: every member reads as it did in the response. *)
Theorem success_stores_the_parsed_result
  (os : string) (s : AppState) (res : Response) (v : json) :
  (200 <= status res <= 299)%N ->
  json_body res = inr v -> has_required_fields v = true ->
  let s' := lifecycle os (inr res) s in
  fetchState s' = Some (Success v) /\
  result s' = v /\ loading s' = false /\ err s' = None /\
  (forall k, get_prop (result s') k = get_prop v k) /\
  asRouteResult (result s') = asRouteResult v.
Proof.
  intros Hok Hv Hfields s'. subst s'. apply ok_true_iff in Hok.
  rewrite (lifecycle_parsed os s res v Hok Hv).
  unfold fetchState. cbn [loading result err].
  rewrite (has_required_fields_not_null v Hfields).
  repeat split.
Qed.

Lemma success_stores_the_parsed_result_witness :
  let s' := lifecycle "ios" (ok200 sampleRoute) initialState in
  fetchState s' = Some (Success sampleRoute) /\
  result s' = sampleRoute /\ loading s' = false /\ err s' = None /\
  (forall k, get_prop (result s') k = get_prop sampleRoute k) /\
  asRouteResult (result s') = asRouteResult sampleRoute.
Proof.
  refine (success_stores_the_parsed_result
            "ios" initialState
            (mkResponse 200 "OK" (inl noBody) (inr sampleRoute)) sampleRoute
            _ eq_refl eq_refl).
  simpl. lia.
Defined.

(** C1, as the code has it. A successful response whose body parses ends
    the call with the parsed value stored as the result, with no error and
    not loading, whether or not the value has the members of a route
    result: nothing is validated, so the outcome is Success for every
    parsed value other than null. Failure is the outcome when the body
    does not parse. A call never ends with an uncaught exception. *)
Theorem parsed_body_is_stored_unvalidated
  (os : string) (s : AppState) (res : Response) :
  (200 <= status res <= 299)%N ->
  (forall v, json_body res = inr v ->
     lifecycle os (inr res) s = mkAppState (origin s) (dest s) v false None /\
     (is_null v = false ->
      fetchState (lifecycle os (inr res) s) = Some (Success v))) /\
  (forall e, json_body res = inl e ->
     fetchState (lifecycle os (inr res) s)
     = Some (Failure (or_else (message e) "Network error"))) /\
  snd (exec (inr res) (getRoute os (origin s) (dest s)) s) = inr tt.
Proof.
  intros Hok. apply ok_true_iff in Hok. split; [|split].
  - intros v Hv. rewrite (lifecycle_parsed os s res v Hok Hv).
    split; [reflexivity|]. intros Hnull.
    unfold fetchState. cbn [loading result err]. rewrite Hnull. reflexivity.
  - intros e He. rewrite (lifecycle_unparsed os s res e Hok He).
    apply fetchState_failure.
  - apply getRoute_returns.
Qed.

Lemma parsed_body_is_stored_unvalidated_witness :
  lifecycle "ios" (inr (mkResponse 200 "OK" (inr "{}") (inr (JObject []))))
            initialState
  = mkAppState "UC Irvine" "Irvine Spectrum Center" (JObject []) false None.
Proof.
  refine (proj1 (proj1 (parsed_body_is_stored_unvalidated
                          "ios" initialState
                          (mkResponse 200 "OK" (inr "{}") (inr (JObject [])))
                          _)
                       (JObject []) eq_refl)).
  simpl. lia.
Defined.

(** C1, as stated, fails: a 200 response whose body is the empty object has
    none of the required members, and the call ends in Success with that
    object stored, not in Failure. *)
Lemma missing_fields_end_in_success :
  let res := mkResponse 200 "OK" (inr "{}") (inr (JObject [])) in
  let s' := lifecycle "ios" (inr res) initialState in
  (200 <= status res <= 299)%N /\
  json_body res = inr (JObject []) /\
  has_required_fields (JObject []) = false /\
  fetchState s' = Some (Success (JObject [])) /\
  err s' = None /\
  (forall msg, fetchState s' <> Some (Failure msg)).
Proof.
  split; [simpl; lia|].
  repeat split. intros msg H. discriminate H.
Qed.

(** ** The presenter *)

Lemma asRouteResult_not_null (v : json) (r : RouteResult) :
  asRouteResult v = Some r -> is_null v = false.
Proof. destruct v; simpl; try reflexivity. discriminate. Qed.

Lemma App_with_result (s : AppState) (r : RouteResult) :
  asRouteResult (result s) = Some r ->
  App s = Some (screenFor (origin s) (dest s) (loading s) (err s) (Some r)).
Proof.
  intros H. unfold App.
  destruct (result s); try discriminate H; rewrite H; reflexivity.
Qed.


Lemma routeMarkers_empty (r : RouteResult) :
  shortest_route r = [] ->
  routeMarkers r = [mkMarker None "Origin"; mkMarker None "Destination"].
Proof. intros H. unfold routeMarkers. rewrite H. reflexivity. Qed.



(** C3, on the code. The result with an empty shortest route is stored as
    a Success; the screen then shows the result panel and no error text,
    the map falls back to the default centre, and both markers are given
    the elements at index 0 and at index -1 of the empty array, which do
    not exist: their coordinate is undefined. *)
Theorem empty_route_markers_are_undefined :
  let s := lifecycle "ios" (ok200 emptyRoute) initialState in
  fetchState s = Some (Success emptyRoute) /\
  exists r screen panel,
    asRouteResult (result s) = Some r /\ shortest_route r = [] /\
    App s = Some screen /\
    errorText screen = None /\
    resultPanel screen = Some panel /\
    initialRegion (mapView panel) = Region.mk 33.64 (-117.84) 0.05 0.05 /\
    markers (mapView panel)
    = [mkMarker None "Origin"; mkMarker None "Destination"].
Proof.
  split; [reflexivity|].
  eexists. eexists. eexists. repeat split.
Qed.

(** ** Sessions: the lifecycle invariant *)

Lemma fetchState_loading (s : AppState) :
  fetchState s = Some Loading ->
  loading s = true /\ is_null (result s) = true /\ err s = None.
Proof.
  unfold fetchState.
  destruct (loading s), (is_null (result s)), (err s); intros H;
    try discriminate H; repeat split.
Qed.

Lemma is_null_true (v : json) : is_null v = true -> v = JNull.
Proof. destruct v; intros H; try discriminate H; reflexivity. Qed.

Lemma is_null_false (v : json) : v <> JNull -> is_null v = false.
Proof. destruct v; intros H; try reflexivity. now elim H. Qed.

(** What being a variant says about the three cells. *)
Lemma variant_cells (s : AppState) :
  fetchState s <> None ->
  (loading s = true -> result s = JNull /\ err s = None) /\
  (result s <> JNull -> err s = None /\ loading s = false) /\
  (err s <> None -> result s = JNull /\ loading s = false).
Proof.
  unfold fetchState. intros Hv.
  destruct (loading s), (is_null (result s)) eqn:Hn, (err s);
    try (now elim Hv); (split; [|split]); intros H; split;
    try reflexivity; try discriminate H; try (now elim H);
    try (apply is_null_true; exact Hn);
    apply is_null_false in H; congruence.
Qed.

(** A segment of a well staged program leaves a well staged program that
    has stopped at a return or at an [await]. *)
Lemma well_staged_run_segment (p : Async unit) (s : AppState) :
  well_staged p s ->
  well_staged (snd (run_segment p s)) (fst (run_segment p s)) /\
  (is_suspended (snd (run_segment p s)) = false ->
   exists u, snd (run_segment p s) = Ret u).
Proof.
  revert s. induction p as [u | e | a k IH | req k _ | res k _ | res k _];
    intros s Hw; simpl in *.
  - split; [exact Hw | intros _; now exists u].
  - elim Hw.
  - apply IH, Hw.
  - split; [exact Hw | discriminate].
  - split; [exact Hw | discriminate].
  - split; [exact Hw | discriminate].
Qed.

(** [getRoute] is well staged from every state. *)
Lemma well_staged_getRoute (os o d : string) (s : AppState) :
  well_staged (getRoute os o d) s.
Proof.
  assert (Hfail : forall m s', fetchState s' = Some Loading ->
            loading (setLoading false (setErr (Some m) s')) = false /\
            fetchState (setLoading false (setErr (Some m) s')) <> None).
  { intros m s' Hs'. destruct (fetchState_loading s' Hs') as [_ [Hn _]].
    split; [reflexivity|]. unfold fetchState. simpl. rewrite Hn. discriminate. }
  assert (Hdone : forall v s', fetchState s' = Some Loading ->
            loading (setLoading false (setResult v s')) = false /\
            fetchState (setLoading false (setResult v s')) <> None).
  { intros v s' Hs'. destruct (fetchState_loading s' Hs') as [_ [_ He]].
    split; [reflexivity|]. unfold fetchState. simpl. rewrite He.
    destruct (is_null v); discriminate. }
  simpl. split; [reflexivity|].
  intros [e|res] s1 Hs1; simpl.
  - now apply Hfail.
  - destruct (ok res); simpl.
    + split; [exact Hs1|]. intros s2 Hs2.
      destruct (json_body res) as [e|v]; simpl.
      * now apply Hfail.
      * now apply Hdone.
    + split; [exact Hs1|]. intros s2 Hs2.
      destruct (text res) as [e|txt]; simpl; now apply Hfail.
Qed.

Lemma resume_consistent (id : nat) (p : Async unit) (x : Session) :
  remove_call id (inflight x) = [] ->
  well_staged p (app x) ->
  consistent (resume id p x).
Proof.
  intros Hrem Hw. unfold resume.
  destruct (well_staged_run_segment p (app x) Hw) as [Hw' Hret].
  destruct (run_segment p (app x)) as [s' p']. simpl in Hw', Hret.
  rewrite Hrem. unfold consistent.
  destruct (is_suspended p') eqn:Hs; simpl.
  - split; [exact Hs | exact Hw'].
  - destruct (Hret eq_refl) as [u ->]. exact Hw'.
Qed.

Lemma consistent_initial (os : string) : consistent (initialSession os).
Proof. split; [reflexivity | discriminate]. Qed.

(** While a call is in flight the button is disabled. *)
Lemma consistent_enabled (x : Session) :
  consistent x -> loading (app x) = false -> inflight x = [].
Proof.
  unfold consistent. intros Hc Hl.
  destruct (inflight x) as [|[i p] [|c rest]]; [reflexivity | | elim Hc].
  destruct Hc as [Hs Hw].
  destruct p; try discriminate Hs; simpl in Hw; destruct Hw as [Hw _];
    apply fetchState_loading in Hw; destruct Hw as [Hw _]; congruence.
Qed.

Lemma consistent_find (x : Session) (id : nat) (p : Async unit) :
  consistent x -> find_call id (inflight x) = Some p ->
  remove_call id (inflight x) = [] /\ well_staged p (app x).
Proof.
  unfold consistent. intros Hc Hf.
  destruct (inflight x) as [|[i q] [|c rest]]; [discriminate Hf | | elim Hc].
  simpl in *. destruct (Nat.eqb id i); [|discriminate Hf].
  injection Hf as <-. split; [reflexivity | apply Hc].
Qed.

Lemma consistent_retyped (x : Session) (s : AppState) :
  consistent x ->
  result s = result (app x) -> loading s = loading (app x) ->
  err s = err (app x) ->
  consistent (mkSession (platform x) s (inflight x) (next_id x)).
Proof.
  unfold consistent. simpl. intros Hc Hr Hl He.
  assert (Hfs : fetchState s = fetchState (app x)).
  { unfold fetchState. rewrite Hr, Hl, He. reflexivity. }
  destruct (inflight x) as [|[i p] [|c rest]]; [| | exact Hc].
  - rewrite Hl, Hfs. exact Hc.
  - destruct Hc as [Hs Hw]. split; [exact Hs|].
    destruct p; try discriminate Hs; simpl in *; rewrite Hfs; exact Hw.
Qed.

Lemma ui_step_consistent (x x' : Session) (e : event) :
  consistent x -> ui_step x e = Some x' -> consistent x'.
Proof.
  intros Hc. unfold ui_step.
  destruct (enabled x e) eqn:Hen; [|discriminate].
  destruct e as [t | t | | id net | id]; simpl; intros Hstep.
  - injection Hstep as <-. now apply consistent_retyped.
  - injection Hstep as <-. now apply consistent_retyped.
  - injection Hstep as <-. simpl in Hen. apply negb_true_iff in Hen.
    apply resume_consistent; cbn [app inflight].
    + rewrite (consistent_enabled x Hc Hen). reflexivity.
    + apply well_staged_getRoute.
  - destruct (find_call id (inflight x)) as [p|] eqn:Hf; [|discriminate].
    destruct (consistent_find x id p Hc Hf) as [Hrem Hw].
    destruct p; try discriminate Hstep. injection Hstep as <-.
    apply resume_consistent; [exact Hrem|]. simpl in Hw. now apply Hw.
  - destruct (find_call id (inflight x)) as [p|] eqn:Hf; [|discriminate].
    destruct (consistent_find x id p Hc Hf) as [Hrem Hw].
    destruct p; try discriminate Hstep; injection Hstep as <-;
      (apply resume_consistent; [exact Hrem|]); simpl in Hw; now apply Hw.
Qed.

Lemma ui_run_consistent (es : list event) (x x' : Session) :
  consistent x -> ui_run x es = Some x' -> consistent x'.
Proof.
  revert x. induction es as [|e es IH]; intros x Hc; unfold ui_run; simpl.
  - intros H. injection H as <-. exact Hc.
  - destruct (ui_step x e) as [x1|] eqn:Hstep; [|discriminate].
    apply IH. exact (ui_step_consistent x x1 e Hc Hstep).
Qed.

Lemma consistent_variant (x : Session) :
  consistent x -> fetchState (app x) <> None.
Proof.
  unfold consistent.
  destruct (inflight x) as [|[i p] [|c rest]]; intros Hc; [apply Hc | | elim Hc].
  destruct Hc as [Hs Hw].
  destruct p; try discriminate Hs; simpl in Hw; destruct Hw as [Hw _];
    rewrite Hw; discriminate.
Qed.

(** The cells at rest. In every state in which a handler has returned to
    the event loop (after any sequence of edits of the two inputs, presses
    of the button while it is enabled, and settlements of the call in
    flight), the three cells form exactly one of Idle, Loading, Success
    and Failure: loading comes with no result and no error, a result comes
    with no error, and an error with no result. *)
Theorem exactly_one_variant (os : string) (es : list event) (x : Session) :
  ui_run (initialSession os) es = Some x ->
  (exists! fs, fetchState (app x) = Some fs) /\
  (loading (app x) = true -> result (app x) = JNull /\ err (app x) = None) /\
  (result (app x) <> JNull -> err (app x) = None /\ loading (app x) = false) /\
  (err (app x) <> None -> result (app x) = JNull /\ loading (app x) = false).
Proof.
  intros Hrun.
  pose proof (ui_run_consistent es _ x (consistent_initial os) Hrun) as Hc.
  apply consistent_variant in Hc. split.
  - destruct (fetchState (app x)) as [fs|]; [|now elim Hc].
    exists fs. split; [reflexivity | congruence].
  - now apply variant_cells.
Qed.

Lemma exactly_one_variant_witness :
  exists x,
    ui_run (initialSession "ios")
           (ChangeDest "Irvine Spectrum" :: Press :: settle 0 (ok200 sampleRoute))
    = Some x /\
    fetchState (app x) = Some (Success sampleRoute) /\
    (exists! fs, fetchState (app x) = Some fs).
Proof.
  eexists. split; [reflexivity|]. split; [reflexivity|].
  exact (proj1 (exactly_one_variant
                  "ios"
                  (ChangeDest "Irvine Spectrum" :: Press
                     :: settle 0 (ok200 sampleRoute))
                  _ eq_refl)).
Defined.

(** ** Overlapping calls *)

(** Unfold the programs as far as they go, and split on what they wait
    for. *)
Ltac crank :=
  repeat (cbn -[ok or_else protocolMessage];
          match goal with
          | H : ok ?r = _ |- context [ok ?r] => rewrite H
          | H : text ?r = _ |- context [text ?r] => rewrite H
          | H : json_body ?r = _ |- context [json_body ?r] => rewrite H
          | |- context [ok ?r] => destruct (ok r) eqn:?
          | |- context [text ?r] => destruct (text r) eqn:?
          | |- context [json_body ?r] => destruct (json_body r) eqn:?
          end).

(** C2, as the code has it. When a second call B is started while a first
    call A is in flight, and A ends after B has ended, nothing of A is
    discarded: A's handlers run on the state B left. If A succeeded its
    value is the stored result, beside whatever error B stored; if A
    failed its message is the stored error, beside whatever result B
    stored. Loading is false and no call is left in flight. *)
Theorem overlapping_calls_last_resolution_wins
  (os : string) (s : AppState) (netA netB : exn + Response) (es : list event) :
  In es (first_ends_last netA netB) ->
  exists x,
    run (mkSession os s [] 0) (Press :: Press :: es) = Some x /\
    inflight x = [] /\ loading (app x) = false /\
    (err (lifecycle os netA s) = None ->
     result (app x) = result (lifecycle os netA s) /\
     err (app x) = err (lifecycle os netB s)) /\
    (err (lifecycle os netA s) <> None ->
     err (app x) = err (lifecycle os netA s) /\
     result (app x) = result (lifecycle os netB s)).
Proof.
  intros Hin.
  destruct netA as [eA|resA], netB as [eB|resB]; simpl in Hin;
    repeat (destruct Hin as [<- | Hin]); try (now elim Hin);
    unfold run, lifecycle; crank;
    (eexists; split; [reflexivity|]);
    (split; [reflexivity|]); (split; [reflexivity|]);
    split; intros H; try discriminate H; try (now elim H);
    split; reflexivity.
Qed.

Lemma overlapping_calls_last_resolution_wins_witness :
  exists x,
    run (mkSession "ios" initialState [] 0)
        (Press :: Press
           :: [FetchSettled 1 (ok200 sampleRoute); BodySettled 1;
               FetchSettled 0 (error500 "internal error"); BodySettled 0])
    = Some x /\
    inflight x = [] /\ loading (app x) = false /\
    (err (lifecycle "ios" (error500 "internal error") initialState) = None ->
     result (app x)
     = result (lifecycle "ios" (error500 "internal error") initialState) /\
     err (app x) = err (lifecycle "ios" (ok200 sampleRoute) initialState)) /\
    (err (lifecycle "ios" (error500 "internal error") initialState) <> None ->
     err (app x)
     = err (lifecycle "ios" (error500 "internal error") initialState) /\
     result (app x) = result (lifecycle "ios" (ok200 sampleRoute) initialState)).
Proof.
  apply (overlapping_calls_last_resolution_wins
           "ios" initialState (error500 "internal error") (ok200 sampleRoute)).
  simpl. right. right. left. reflexivity.
Defined.

(** C2, as stated, fails: B's response arrives first and is stored, then
    A's older response arrives and replaces it. *)
Lemma stale_response_replaces_newer_result :
  let netA := ok200 sampleRoute in
  let netB := ok200 emptyRoute in
  let es := (settle 1 netB ++ settle 0 netA)%list in
  In es (first_ends_last netA netB) /\
  option_map (fun x => fetchState (app x))
             (run (initialSession "ios") (Press :: Press :: settle 1 netB))
  = Some (Some (Success emptyRoute)) /\
  option_map (fun x => fetchState (app x))
             (run (initialSession "ios") (Press :: Press :: es))
  = Some (Some (Success sampleRoute)) /\
  sampleRoute <> emptyRoute.
Proof.
  split; [simpl; right; right; left; reflexivity|].
  split; [reflexivity|]. split; [reflexivity|]. discriminate.
Qed.

(** The second press of such a schedule cannot come from the screen: the
    button is disabled while the first call is in flight. *)
Lemma second_press_is_disabled (os : string) (s : AppState) (es : list event) :
  ui_run (mkSession os s [] 0) (Press :: Press :: es) = None.
Proof.
  unfold ui_run, run_with, ui_step. simpl. destruct (loading s); reflexivity.
Qed.

(** Without the gate a failure of A lands beside the result of B, which is
    none of the four variants. *)
Lemma overlap_can_leave_result_and_error :
  option_map (fun x => fetchState (app x))
             (run (initialSession "ios")
                  (Press :: Press
                     :: (settle 1 (ok200 sampleRoute)
                           ++ settle 0 (error500 "internal error"))%list))
  = Some None.
Proof. reflexivity. Qed.

(** One call with nothing interleaved: the session ends in the state that
    [lifecycle] computes. *)
Lemma run_single_call (os : string) (s : AppState) (net : exn + Response) :
  exists x,
    run (mkSession os s [] 0) (Press :: settle 0 net) = Some x /\
    app x = lifecycle os net s /\ inflight x = [].
Proof.
  destruct net as [e|res]; unfold run, lifecycle; crank;
    eexists; repeat split.
Qed.

(** ** The scenarios of the specification *)

Example scenario_valid_response :
  let s := lifecycle "ios" (ok200 sampleRoute) initialState in
  fetchState s = Some (Success sampleRoute) /\
  option_map
    (fun screen =>
       option_map (fun panel => (length (polylines (mapView panel)),
                                 map coordinate (markers (mapView panel))))
                  (resultPanel screen))
    (App s)
  = Some (Some (2%nat, [Some (mkLatLng 33.6405 (-117.8443));
                        Some (mkLatLng 33.6501 (-117.7432))])).
Proof. split; reflexivity. Qed.

Example scenario_internal_error :
  fetchState (lifecycle "ios" (error500 "internal error") initialState)
  = Some (Failure "500 Internal Server Error – internal error").
Proof. reflexivity. Qed.

Example scenario_unreachable :
  fetchState (lifecycle "android" unreachable initialState)
  = Some (Failure "Network request failed").
Proof. reflexivity. Qed.

Example scenario_request :
  snd (submitted "android" initialState)
  = Some (mkRequest "http://10.0.2.2:8000/route" "POST"
                    [("Content-Type", "application/json")]
                    (JSON_stringify
                       (JObject [("origin", JString "UC Irvine");
                                 ("destination", JString "Irvine Spectrum Center");
                                 ("alpha", JNumber 1.5);
                                 ("beta", JNumber 0.7);
                                 ("use_weather", JBool false)]))).
Proof. reflexivity. Qed.

(* ================================================================== *)
(** * Further properties of the component *)

(** ** One call, from any state *)

(** Case analysis on how a call went. *)
Lemma lifecycle_cases (os : string) (net : exn + Response) (s : AppState) :
  (exists v, lifecycle os net s = mkAppState (origin s) (dest s) v false None /\
             exists res, net = inr res /\ ok res = true /\ json_body res = inr v) \/
  (exists msg, lifecycle os net s
               = mkAppState (origin s) (dest s) JNull false (Some msg) /\
               msg <> EmptyString /\
               forall res, net = inr res -> ok res = true ->
                           exists e, json_body res = inl e).
Proof.
  destruct net as [e|res].
  - right. eexists. split; [apply lifecycle_rejected|].
    split; [apply or_else_nonempty; discriminate | discriminate].
  - destruct (ok res) eqn:Hok.
    + destruct (json_body res) as [e|v] eqn:Hv.
      * right. eexists. split; [exact (lifecycle_unparsed os s res e Hok Hv)|].
        split; [apply or_else_nonempty; discriminate|].
        intros res' H _. injection H as <-. now exists e.
      * left. exists v. split; [exact (lifecycle_parsed os s res v Hok Hv)|]. now exists res.
    + destruct (text res) as [e|txt] eqn:Htxt.
      * right. eexists. split; [exact (lifecycle_unread os s res e Hok Htxt)|].
        split; [apply or_else_nonempty; discriminate|].
        intros res' H Hok'. injection H as <-. congruence.
      * right. eexists. split; [exact (lifecycle_protocol os s res txt Hok Htxt)|].
        split; [apply protocolMessage_nonempty|].
        intros res' H Hok'. injection H as <-. congruence.
Qed.

Lemma lifecycle_inputs (os : string) (net : exn + Response) (s : AppState) :
  origin (lifecycle os net s) = origin s /\
  dest (lifecycle os net s) = dest s.
Proof.
  destruct (lifecycle_cases os net s) as [[v [-> _]] | [msg [-> _]]];
    split; reflexivity.
Qed.

(** X1. From any state whatever, also one that is no variant, a call
    leaves the two inputs as they were and ends in Idle, Success or
    Failure, never in Loading: the spinner does not outlive the call, and
    a result and an error are never left together. *)
Theorem call_ends_settled (os : string) (net : exn + Response) (s : AppState) :
  let s' := lifecycle os net s in
  origin s' = origin s /\ dest s' = dest s /\ loading s' = false /\
  (exists fs, fetchState s' = Some fs /\ fs <> Loading) /\
  (err s' = None \/ result s' = JNull).
Proof.
  cbv zeta.
  destruct (lifecycle_cases os net s) as [[v [-> _]] | [msg [-> _]]];
    cbn [origin dest loading err result].
  - repeat split; [|now left]. unfold fetchState. cbn [loading result err].
    destruct (is_null v); eexists; (split; [reflexivity | discriminate]).
  - repeat split; [|now right].
    eexists; (split; [reflexivity | discriminate]).
Qed.

(** X2. What a call leaves depends on the answer of the network and on
    the two input texts only: whatever result, error or loading flag was
    stored before is replaced, nothing of it is merged in. Submitting again
    with the same answer changes nothing. *)
Theorem call_forgets_previous_state
  (os : string) (net : exn + Response) (s : AppState) :
  (forall r l e,
     lifecycle os net (mkAppState (origin s) (dest s) r l e)
     = lifecycle os net s) /\
  lifecycle os net (lifecycle os net s) = lifecycle os net s.
Proof.
  assert (H : forall s1 s2, origin s1 = origin s2 -> dest s1 = dest s2 ->
                            lifecycle os net s1 = lifecycle os net s2).
  { intros s1 s2 Ho Hd. destruct net as [e|res].
    - rewrite !lifecycle_rejected. now rewrite Ho, Hd.
    - destruct (ok res) eqn:Hok.
      + destruct (json_body res) as [e|v] eqn:Hv.
        * rewrite !(lifecycle_unparsed os _ res e Hok Hv). now rewrite Ho, Hd.
        * rewrite !(lifecycle_parsed os _ res v Hok Hv). now rewrite Ho, Hd.
      + destruct (text res) as [e|txt] eqn:Htxt.
        * rewrite !(lifecycle_unread os _ res e Hok Htxt). now rewrite Ho, Hd.
        * rewrite !(lifecycle_protocol os _ res txt Hok Htxt).
          now rewrite Ho, Hd. }
  split.
  - intros r l e. now apply H.
  - apply H; apply lifecycle_inputs.
Qed.

(** X3. A call ends in Success with [v] exactly when the fetch resolved
    with a status in 200-299 and the body parsed to [v], a value other
    than null.  So a rejected fetch never yields a result, and neither
    does a response with another status, even when its body would parse
    to a route. *)
Theorem success_exactly_when_ok_and_parsed
  (os : string) (net : exn + Response) (s : AppState) (v : json) :
  fetchState (lifecycle os net s) = Some (Success v) <->
  exists res,
    net = inr res /\ (200 <= status res <= 299)%N /\
    json_body res = inr v /\ v <> JNull.
Proof.
  split.
  - destruct (lifecycle_cases os net s)
      as [[w [-> [res [-> [Hok Hw]]]]] | [msg [-> _]]].
    + unfold fetchState. cbn [loading result err].
      destruct (is_null w) eqn:Hn; [discriminate|].
      intros H. injection H as <-. exists res.
      split; [reflexivity|]. split; [now apply ok_true_iff|].
      split; [exact Hw|]. intros ->. discriminate Hn.
    + discriminate.
  - intros [res [-> [Hst [Hv Hnn]]]]. apply ok_true_iff in Hst.
    rewrite (lifecycle_parsed os s res v Hst Hv).
    unfold fetchState. cbn [loading result err].
    now rewrite (is_null_false v Hnn).
Qed.

Lemma success_exactly_when_ok_and_parsed_witness :
  fetchState (lifecycle "ios" (ok200 sampleRoute) initialState)
  = Some (Success sampleRoute).
Proof.
  apply (proj2 (success_exactly_when_ok_and_parsed
                  "ios" (ok200 sampleRoute) initialState sampleRoute)).
  eexists. split; [reflexivity|]. split; [simpl; lia|].
  split; [reflexivity | discriminate].
Defined.

(** ** The effects of a call, in order *)

(** X4. Whatever the network answers, a call makes its effects in this
    order: the three clearing setters, one [fetch] (there is no retry),
    at most one read of the body (as text when the status is outside
    200-299, as JSON otherwise, none when the fetch was rejected), one
    write of the result or of the error, and [setLoading(false)] last. *)
Theorem one_fetch_then_one_write
  (os origin dest : string) (net : exn + Response) :
  exists reads write,
    trace net (getRoute os origin dest)
    = ([Called (SetErr None); Called (SetResult JNull);
        Called (SetLoading true); Fetched (routeRequest os origin dest)]
         ++ reads ++ [Called write; Called (SetLoading false)])%list /\
    match net with
    | inl _ => reads = []
    | inr res => reads = [if ok res then ReadJson res else ReadText res]
    end /\
    match write with
    | SetResult _ => True
    | SetErr (Some msg) => msg <> EmptyString
    | _ => False
    end /\
    length (filter is_fetch (trace net (getRoute os origin dest))) = 1%nat /\
    (length (filter is_read (trace net (getRoute os origin dest))) <= 1)%nat.
Proof.
  destruct net as [e|res]; cbn -[or_else protocolMessage].
  2: destruct (ok res) eqn:Hok; cbn -[or_else protocolMessage];
     [destruct (json_body res) as [e|v] | destruct (text res) as [e|txt]];
     cbn -[or_else protocolMessage].
  all: match goal with
       | |- context [Called (SetLoading true) :: Fetched _ :: ?rest] =>
           match rest with
           | [Called ?w; _] => exists [], w
           | [?r; Called ?w; _] => exists [r], w
           end
       end;
       repeat split; try apply Nat.le_refl; try apply Nat.le_0_l;
       apply or_else_nonempty; discriminate.
Qed.

(** ** Sessions through the screen *)

Lemma run_with_app (f : Session -> event -> option Session)
  (es1 es2 : list event) (x : Session) :
  run_with f x (es1 ++ es2)%list
  = match run_with f x es1 with
    | Some x1 => run_with f x1 es2
    | None => None
    end.
Proof.
  revert x. induction es1 as [|e es1 IH]; intros x; simpl; [reflexivity|].
  destruct (f x e); [apply IH | reflexivity].
Qed.

Lemma ui_step_step (x x' : Session) (e : event) :
  ui_step x e = Some x' -> step x e = Some x'.
Proof. unfold ui_step. destruct (enabled x e); [trivial | discriminate]. Qed.

(** What the screen allows is one of the orders the event loop allows. *)
Lemma ui_run_run (es : list event) (x x' : Session) :
  ui_run x es = Some x' -> run x es = Some x'.
Proof.
  unfold ui_run, run. revert x. induction es as [|e es IH]; intros x; simpl.
  - trivial.
  - destruct (ui_step x e) as [x1|] eqn:H; [|discriminate].
    rewrite (ui_step_step x x1 e H). apply IH.
Qed.

Lemma resume_platform (id : nat) (p : Async unit) (x : Session) :
  platform (resume id p x) = platform x.
Proof. unfold resume. destruct (run_segment p (app x)). reflexivity. Qed.

Lemma step_platform (x x' : Session) (e : event) :
  step x e = Some x' -> platform x' = platform x.
Proof.
  destruct e as [t | t | | id net | id]; simpl; intros H.
  - now injection H as <-.
  - now injection H as <-.
  - injection H as <-. now rewrite resume_platform.
  - destruct (find_call id (inflight x)) as [[]|]; try discriminate H;
      injection H as <-; apply resume_platform.
  - destruct (find_call id (inflight x)) as [[]|]; try discriminate H;
      injection H as <-; apply resume_platform.
Qed.

Lemma run_platform (es : list event) (x x' : Session) :
  run x es = Some x' -> platform x' = platform x.
Proof.
  unfold run. revert x. induction es as [|e es IH]; intros x; simpl.
  - intros H. now injection H as <-.
  - destruct (step x e) as [x1|] eqn:H1; [|discriminate].
    intros H. rewrite (IH x1 H). exact (step_platform x x1 e H1).
Qed.

(** X5. Through the screen at most one call, and so at most one request,
    is ever in flight, and the loading flag is true exactly while there is
    one: the button is enabled exactly when nothing is in flight. *)
Theorem one_call_in_flight (os : string) (es : list event) (x : Session) :
  ui_run (initialSession os) es = Some x ->
  (length (inflight x) <= 1)%nat /\
  (length (pending_requests (inflight x)) <= 1)%nat /\
  (loading (app x) = true <-> inflight x <> []) /\
  (enabled x Press = true <-> inflight x = []).
Proof.
  intros Hrun.
  pose proof (ui_run_consistent es _ x (consistent_initial os) Hrun) as Hc.
  unfold consistent in Hc. simpl.
  destruct (inflight x) as [|[i p] [|c rest]]; [| | elim Hc].
  - destruct Hc as [Hl _]. rewrite Hl. simpl.
    repeat split; auto; try discriminate; try (intros H; now elim H).
  - destruct Hc as [Hs Hw].
    assert (Hl : loading (app x) = true).
    { destruct p; try discriminate Hs; simpl in Hw; destruct Hw as [Hw _];
        now apply fetchState_loading in Hw. }
    rewrite Hl. simpl.
    repeat split; auto; try discriminate.
    destruct p; simpl; auto.
Qed.

Lemma one_call_in_flight_witness :
  exists x,
    ui_run (initialSession "ios") [Press; ChangeOrigin "Aldrich Park"] = Some x /\
    (length (inflight x) <= 1)%nat /\
    (length (pending_requests (inflight x)) <= 1)%nat /\
    (loading (app x) = true <-> inflight x <> []) /\
    (enabled x Press = true <-> inflight x = []).
Proof.
  eexists. split; [reflexivity|].
  exact (one_call_in_flight "ios" [Press; ChangeOrigin "Aldrich Park"] _ eq_refl).
Defined.

(** X6. While the loading flag is set nothing a user does ends the
    loading: a press does not reach [getRoute], and edits leave the
    result, the error, the flag and the call in flight as they are. Only
    a settlement of the call does, however long it takes; there is no
    timeout. *)
Theorem loading_waits_for_the_network
  (x x' : Session) (es : list event) :
  loading (app x) = true ->
  forallb is_user es = true ->
  ui_run x es = Some x' ->
  forallb is_edit es = true /\
  loading (app x') = true /\
  result (app x') = result (app x) /\ err (app x') = err (app x) /\
  inflight x' = inflight x.
Proof.
  unfold ui_run. revert x. induction es as [|e es IH]; intros x Hl Hu; simpl.
  - intros H. injection H as <-. repeat split. exact Hl.
  - simpl in Hu. apply andb_true_iff in Hu. destruct Hu as [He Hu].
    destruct (ui_step x e) as [x1|] eqn:Hs; [|discriminate]. intros H.
    unfold ui_step in Hs.
    destruct e as [t | t | | id net | id]; try discriminate He; simpl in Hs.
    + injection Hs as <-. apply IH in H; [|exact Hl | exact Hu].
      destruct H as [H1 [H2 [H3 [H4 H5]]]].
      repeat split; assumption.
    + injection Hs as <-. apply IH in H; [|exact Hl | exact Hu].
      destruct H as [H1 [H2 [H3 [H4 H5]]]].
      repeat split; assumption.
    + rewrite Hl in Hs. discriminate Hs.
Qed.

Lemma loading_waits_for_the_network_witness :
  exists x x',
    ui_run (initialSession "ios") [Press] = Some x /\
    ui_run x [ChangeOrigin "Aldrich Park"; ChangeDest "University Center"]
    = Some x' /\
    loading (app x') = true /\ inflight x' = inflight x.
Proof.
  eexists. eexists. split; [reflexivity|]. split; [reflexivity|].
  match goal with
  | |- loading (app ?b) = true /\ inflight ?b = inflight ?a =>
      destruct (loading_waits_for_the_network
                  a b
                  [ChangeOrigin "Aldrich Park"; ChangeDest "University Center"]
                  eq_refl eq_refl eq_refl) as [_ [H [_ [_ H']]]]
  end.
  split; [exact H | exact H'].
Defined.

(** ** Typing while a call is in flight *)

Lemma edit_setter (a : setter) (e : event) (s : AppState) :
  apply_setter a (edit s e) = edit (apply_setter a s) e.
Proof. destruct a, e; reflexivity. Qed.

(** The setters of [getRoute] and the edits of the inputs work on
    different cells: they commute. *)
Lemma edits_setter (a : setter) (es : list event) (s : AppState) :
  apply_setter a (edits es s) = edits es (apply_setter a s).
Proof.
  unfold edits. revert s. induction es as [|e es IH]; intros s; simpl.
  - reflexivity.
  - rewrite IH, edit_setter. reflexivity.
Qed.

Lemma setErr_edits (e : option string) (es : list event) (s : AppState) :
  setErr e (edits es s) = edits es (setErr e s).
Proof. exact (edits_setter (SetErr e) es s). Qed.

Lemma setResult_edits (v : json) (es : list event) (s : AppState) :
  setResult v (edits es s) = edits es (setResult v s).
Proof. exact (edits_setter (SetResult v) es s). Qed.

Lemma setLoading_edits (b : bool) (es : list event) (s : AppState) :
  setLoading b (edits es s) = edits es (setLoading b s).
Proof. exact (edits_setter (SetLoading b) es s). Qed.

Lemma edits_app (es1 es2 : list event) (s : AppState) :
  edits (es1 ++ es2) s = edits es2 (edits es1 s).
Proof. apply fold_left_app. Qed.

Lemma ui_run_edits (es : list event) (x : Session) :
  forallb is_edit es = true ->
  run_with ui_step x es
  = Some (mkSession (platform x) (edits es (app x)) (inflight x) (next_id x)).
Proof.
  revert x. induction es as [|e es IH]; intros x He; simpl.
  - destruct x; reflexivity.
  - simpl in He. apply andb_true_iff in He. destruct He as [He Hes].
    destruct e as [t | t | | id net | id]; try discriminate He;
      unfold ui_step; simpl; rewrite (IH _ Hes); reflexivity.
Qed.

Lemma ui_step_press (x : Session) :
  loading (app x) = false -> ui_step x Press = step x Press.
Proof. unfold ui_step. simpl. now intros ->. Qed.

Lemma ui_step_fetch (x : Session) (id : nat) (net : exn + Response) :
  ui_step x (FetchSettled id net) = step x (FetchSettled id net).
Proof. reflexivity. Qed.

Lemma ui_step_body (x : Session) (id : nat) :
  ui_step x (BodySettled id) = step x (BodySettled id).
Proof. reflexivity. Qed.

(** Unfold the handlers of a session whose events are known. *)
Ltac session_step :=
  cbn [run_with];
  rewrite ?ui_step_fetch, ?ui_step_body;
  cbn -[or_else protocolMessage run_with edits ui_step];
  rewrite ?Nat.eqb_refl;
  cbn -[or_else protocolMessage run_with edits ui_step].

(** X7. The texts of a request are those on the screen when the button
    was pressed. Edits made while the call is in flight, before or after
    the response arrives, change neither the request nor the outcome, and
    they are kept: the session ends in the state the call alone would
    leave, with the edits applied to it. *)
Theorem edits_do_not_disturb_a_call
  (os : string) (es : list event) (x : Session)
  (es1 es2 : list event) (net : exn + Response) :
  ui_run (initialSession os) es = Some x ->
  loading (app x) = false ->
  forallb is_edit es1 = true -> forallb is_edit es2 = true ->
  (exists x1,
      ui_run x (Press :: es1) = Some x1 /\
      pending_requests (inflight x1)
      = [routeRequest os (origin (app x)) (dest (app x))]) /\
  (exists x',
      ui_run x (Press :: es1 ++ FetchSettled (next_id x) net
                      :: es2 ++ tl (settle (next_id x) net))%list = Some x' /\
      app x' = edits (es1 ++ es2) (lifecycle os net (app x)) /\
      inflight x' = []).
Proof.
  intros Hrun Hl H1 H2.
  pose proof (ui_run_consistent es _ x (consistent_initial os) Hrun) as Hc.
  pose proof (consistent_enabled x Hc Hl) as Hfl.
  pose proof (run_platform es _ x (ui_run_run es _ x Hrun)) as Hpf.
  destruct x as [pf a fl nid]. simpl in Hl, Hfl, Hpf. subst pf fl.
  clear Hrun Hc. cbn [app next_id]. unfold ui_run. cbn [run_with].
  rewrite ui_step_press by exact Hl.
  cbn -[or_else protocolMessage run_with edits ui_step tl settle].
  split.
  - rewrite (ui_run_edits es1 _ H1). eexists. split; reflexivity.
  - rewrite run_with_app, (ui_run_edits es1 _ H1), edits_app.
    session_step.
    destruct net as [e|res]; unfold lifecycle; session_step.
    + rewrite app_nil_r, (ui_run_edits es2 _ H2).
      eexists. split; [reflexivity|]. split; [|reflexivity].
      cbn [app].
      rewrite ?setErr_edits, ?setResult_edits, ?setLoading_edits.
      reflexivity.
    + destruct (ok res) eqn:Hok; session_step;
        rewrite run_with_app, (ui_run_edits es2 _ H2);
        session_step;
        [destruct (json_body res) as [e|v] | destruct (text res) as [e|txt]];
        session_step;
        (eexists; split; [reflexivity|]; split; [|reflexivity]);
        cbn [app];
        rewrite ?setErr_edits, ?setResult_edits, ?setLoading_edits;
        reflexivity.
Qed.

Lemma edits_do_not_disturb_a_call_witness :
  let x := initialSession "ios" in
  let es1 := [ChangeOrigin "Aldrich Park"] in
  let es2 := [ChangeDest "University Center"] in
  let net := ok200 sampleRoute in
  (exists x1,
      ui_run x (Press :: es1) = Some x1 /\
      pending_requests (inflight x1)
      = [routeRequest "ios" (origin (app x)) (dest (app x))]) /\
  (exists x',
      ui_run x (Press :: es1 ++ FetchSettled (next_id x) net
                      :: es2 ++ tl (settle (next_id x) net))%list = Some x' /\
      app x' = edits (es1 ++ es2) (lifecycle "ios" net (app x)) /\
      inflight x' = []).
Proof.
  exact (edits_do_not_disturb_a_call
           "ios" [] (initialSession "ios")
           [ChangeOrigin "Aldrich Park"] [ChangeDest "University Center"]
           (ok200 sampleRoute) eq_refl eq_refl eq_refl eq_refl).
Defined.

(** ** Error messages, under any interleaving *)

Lemma tidy_getRoute (os o d : string) : tidy (getRoute os o d).
Proof.
  assert (Hm : forall e, or_else (message e) "Network error" <> EmptyString).
  { intros e. apply or_else_nonempty. discriminate. }
  cbn -[or_else protocolMessage]. repeat split.
  intros [e|res]; cbn -[or_else protocolMessage]; [easy|].
  destruct (ok res); cbn -[or_else protocolMessage];
    intros [e|v]; cbn -[or_else protocolMessage]; repeat split;
    try apply Hm; apply or_else_nonempty; discriminate.
Qed.

Lemma tidy_run_segment (p : Async unit) (s : AppState) :
  tidy p -> err s <> Some EmptyString ->
  tidy (snd (run_segment p s)) /\
  err (fst (run_segment p s)) <> Some EmptyString.
Proof.
  revert s. induction p as [u | e | a k IH | req k _ | res k _ | res k _];
    intros s Ht Hs; simpl in *; try (split; assumption).
  destruct Ht as [Ha Hk]. apply IH; [exact Hk|].
  destruct a as [[m|] | v | b]; simpl; try exact Hs; try discriminate.
  intros H. injection H as ->. now apply Ha.
Qed.

Lemma remove_call_In (id i : nat) (p : Async unit) (calls : list (nat * Async unit)) :
  In (i, p) (remove_call id calls) -> In (i, p) calls.
Proof.
  induction calls as [|[j q] rest IH]; simpl; [trivial|].
  destruct (Nat.eqb id j); simpl; [now right | intros [H|H]; auto].
Qed.

Lemma find_call_In (id : nat) (p : Async unit) (calls : list (nat * Async unit)) :
  find_call id calls = Some p -> In (id, p) calls.
Proof.
  induction calls as [|[j q] rest IH]; simpl; [discriminate|].
  destruct (Nat.eqb_spec id j) as [->|_].
  - intros H. injection H as ->. now left.
  - intros H. right. now apply IH.
Qed.

Lemma tidy_resume (id : nat) (p : Async unit) (x : Session) :
  tidy_session x -> tidy p -> tidy_session (resume id p x).
Proof.
  intros [He Hfl] Hp. unfold resume.
  destruct (tidy_run_segment p (app x) Hp He) as [Hp' He'].
  destruct (run_segment p (app x)) as [s' p']. simpl in Hp', He'.
  split; [exact He'|]. simpl. intros i q Hin.
  assert (Hold : In (i, q) (remove_call id (inflight x)) -> tidy q).
  { intros H. apply (Hfl i), (remove_call_In id), H. }
  destruct (is_suspended p'); [|now apply Hold].
  apply in_app_or in Hin. destruct Hin as [H|[H|[]]]; [now apply Hold|].
  injection H as _ <-. exact Hp'.
Qed.

Lemma tidy_step (x x' : Session) (e : event) :
  tidy_session x -> step x e = Some x' -> tidy_session x'.
Proof.
  intros Ht. destruct e as [t | t | | id net | id]; simpl; intros H.
  - injection H as <-. exact Ht.
  - injection H as <-. exact Ht.
  - injection H as <-. apply tidy_resume; [exact Ht | apply tidy_getRoute].
  - destruct (find_call id (inflight x)) as [p|] eqn:Hf; [|discriminate].
    apply find_call_In in Hf. apply (proj2 Ht) in Hf.
    destruct p; try discriminate H. injection H as <-.
    apply tidy_resume; [exact Ht | apply Hf].
  - destruct (find_call id (inflight x)) as [p|] eqn:Hf; [|discriminate].
    apply find_call_In in Hf. apply (proj2 Ht) in Hf.
    destruct p; try discriminate H; injection H as <-;
      (apply tidy_resume; [exact Ht | apply Hf]).
Qed.

Lemma tidy_run (es : list event) (x x' : Session) :
  tidy_session x -> run x es = Some x' -> tidy_session x'.
Proof.
  unfold run. revert x. induction es as [|e es IH]; intros x Ht; simpl.
  - intros H. now injection H as <-.
  - destruct (step x e) as [x1|] eqn:Hs; [|discriminate].
    apply IH. exact (tidy_step x x1 e Ht Hs).
Qed.

Lemma App_parts (s : AppState) (screen : Screen) :
  App s = Some screen ->
  originValue screen = origin s /\ destValue screen = dest s /\
  buttonDisabled screen = loading s /\ loadingOverlay screen = loading s /\
  buttonTitle screen = (if loading s then "Finding route..." else "Get Route") /\
  errorText screen = errorTextFor (err s) /\
  (resultPanel screen = None <-> result s = JNull).
Proof.
  unfold App. intros H.
  destruct (result s) as [| b | q | t | items | members].
  1: injection H as <-; repeat split.
  all: match type of H with
       | context [asRouteResult ?v] =>
           destruct (asRouteResult v) as [r|]; [|discriminate H]
       end;
       injection H as <-; repeat split; discriminate.
Qed.

(** X8. In whatever order the handlers run, overlapping calls included,
    the stored error is never the empty string: it is null or a message
    with at least one character. So the [err &&] test of the render never
    hides a stored error: the text shown is the stored message. *)
Theorem stored_error_is_shown (os : string) (es : list event) (x : Session) :
  run (initialSession os) es = Some x ->
  err (app x) <> Some EmptyString /\
  errorTextFor (err (app x)) = err (app x) /\
  forall screen, App (app x) = Some screen -> errorText screen = err (app x).
Proof.
  intros Hrun.
  assert (Ht : tidy_session (initialSession os)).
  { split; [discriminate | intros i p []]. }
  destruct (tidy_run es _ x Ht Hrun) as [He _].
  assert (Hshown : errorTextFor (err (app x)) = err (app x)).
  { destruct (err (app x)) as [[|c m]|]; try reflexivity. now elim He. }
  split; [exact He|]. split; [exact Hshown|].
  intros screen HA. destruct (App_parts _ _ HA) as [_ [_ [_ [_ [_ [H _]]]]]].
  now rewrite H.
Qed.

Lemma stored_error_is_shown_witness :
  exists x,
    run (initialSession "ios")
        (Press :: Press :: (settle 1 (ok200 sampleRoute)
                              ++ settle 0 (error500 "internal error"))%list)
    = Some x /\
    err (app x) = Some "500 Internal Server Error – internal error" /\
    forall screen, App (app x) = Some screen -> errorText screen = err (app x).
Proof.
  eexists. split; [reflexivity|]. split; [reflexivity|].
  exact (proj2 (proj2 (stored_error_is_shown
                         "ios"
                         (Press :: Press
                            :: (settle 1 (ok200 sampleRoute)
                                  ++ settle 0 (error500 "internal error"))%list)
                         _ eq_refl))).
Defined.

(** ** Every call comes to an end *)

Lemma settles_within_mono (p : Async unit) (n m : nat) :
  (n <= m)%nat -> settles_within n p -> settles_within m p.
Proof.
  revert n m. induction p as [u | e | a k IH | req k IH | res k IH | res k IH];
    intros n m Hnm; simpl; try trivial.
  - now apply IH.
  - destruct n as [|n]; [intros []|]. destruct m as [|m]; [lia|].
    intros H r. apply (IH r n m); [lia | apply H].
  - destruct n as [|n]; [intros []|]. destruct m as [|m]; [lia|].
    intros H r. apply (IH r n m); [lia | apply H].
  - destruct n as [|n]; [intros []|]. destruct m as [|m]; [lia|].
    intros H r. apply (IH r n m); [lia | apply H].
Qed.

(** A call of [getRoute] awaits at most twice. *)
Lemma settles_within_getRoute (os o d : string) :
  settles_within 2 (getRoute os o d).
Proof.
  simpl. intros [e|res]; simpl; [trivial|].
  destruct (ok res); simpl; intros [e|v]; simpl; trivial.
Qed.

Lemma settles_within_run_segment (n : nat) (p : Async unit) (s : AppState) :
  settles_within n p -> settles_within n (snd (run_segment p s)).
Proof.
  revert s. induction p as [u | e | a k IH | req k _ | res k _ | res k _];
    intros s H; simpl in *; try exact H.
  now apply IH.
Qed.

Lemma resume_inflight (id : nat) (p : Async unit) (x : Session) :
  inflight (resume id p x)
  = if is_suspended (snd (run_segment p (app x)))
    then (remove_call id (inflight x) ++ [(id, snd (run_segment p (app x)))])%list
    else remove_call id (inflight x).
Proof. unfold resume. destruct (run_segment p (app x)). reflexivity. Qed.

(** Answering the call in flight [n] times at most ends it. *)
Lemma drain (n : nat) :
  forall (x : Session) (id : nat) (p : Async unit) (net : exn + Response),
    consistent x -> inflight x = [(id, p)] -> settles_within n p ->
    exists es x',
      (length es <= n)%nat /\
      Forall (fun e => e = FetchSettled id net \/ e = BodySettled id) es /\
      ui_run x es = Some x' /\ inflight x' = [] /\ loading (app x') = false.
Proof.
  induction n as [|n IH]; intros x id p net Hc Hfl Hn.
  - exfalso. unfold consistent in Hc. rewrite Hfl in Hc.
    destruct Hc as [Hs _]. destruct p; try discriminate Hs; exact Hn.
  - assert (Hs : is_suspended p = true).
    { unfold consistent in Hc. rewrite Hfl in Hc. apply Hc. }
    assert (Hstep : exists q,
               ui_step x (answer id net p) = Some (resume id q x) /\
               settles_within n q).
    { destruct p as [u | e | a k | req k | res k | res k];
        try discriminate Hs; simpl in Hn;
        unfold ui_step; simpl; rewrite Hfl; simpl; rewrite Nat.eqb_refl;
        eexists; (split; [reflexivity | apply Hn]). }
    destruct Hstep as [q [Hstep Hq]].
    pose proof (ui_step_consistent x _ _ Hc Hstep) as Hc1.
    pose proof (resume_inflight id q x) as Hfl1.
    rewrite Hfl in Hfl1. simpl in Hfl1. rewrite Nat.eqb_refl in Hfl1.
    assert (Hev : answer id net p = FetchSettled id net \/
                  answer id net p = BodySettled id).
    { destruct p; simpl; auto. }
    destruct (is_suspended (snd (run_segment q (app x)))) eqn:Hs1.
    + destruct (IH (resume id q x) id _ net Hc1 Hfl1
                   (settles_within_run_segment n q (app x) Hq))
        as [es [x' [Hlen [Hall [Hrun [Hend Hl]]]]]].
      exists (answer id net p :: es), x'.
      split; [simpl; lia|]. split; [now constructor|].
      split; [|split; assumption].
      unfold ui_run in *. simpl. now rewrite Hstep.
    + exists [answer id net p], (resume id q x).
      split; [simpl; lia|].
      split; [constructor; [exact Hev | constructor]|].
      split; [unfold ui_run; simpl; now rewrite Hstep|].
      split; [exact Hfl1|].
      unfold consistent in Hc1. rewrite Hfl1 in Hc1. apply Hc1.
Qed.

(** Through the screen every call in flight is a call of [getRoute] with
    at most two settlements to go. *)
Lemma ui_run_settles (es : list event) (x x' : Session) :
  consistent x ->
  (forall id p, inflight x = [(id, p)] -> settles_within 2 p) ->
  ui_run x es = Some x' ->
  forall id p, inflight x' = [(id, p)] -> settles_within 2 p.
Proof.
  unfold ui_run. revert x. induction es as [|e es IH]; intros x Hc Hw; simpl.
  - intros H. now injection H as <-.
  - destruct (ui_step x e) as [x1|] eqn:Hs; [|discriminate].
    apply IH; [exact (ui_step_consistent x x1 e Hc Hs)|].
    clear IH. intros id p Hfl1. unfold ui_step in Hs.
    destruct (enabled x e) eqn:Hen; [|discriminate Hs].
    assert (Hnew : forall y i q,
               remove_call i (inflight y) = [] -> settles_within 2 q ->
               inflight (resume i q y) = [(id, p)] -> settles_within 2 p).
    { intros y i q Hrem Hq. rewrite resume_inflight, Hrem.
      destruct (is_suspended (snd (run_segment q (app y))));
        [|discriminate].
      intros H. injection H as _ <-.
      now apply settles_within_run_segment. }
    assert (Hold : forall i q, find_call i (inflight x) = Some q ->
                               settles_within 2 q).
    { intros i q Hf. unfold consistent in Hc.
      destruct (inflight x) as [|[j q'] [|c rest]] eqn:E;
        [discriminate Hf | | elim Hc].
      simpl in Hf. destruct (Nat.eqb i j); [|discriminate Hf].
      injection Hf as <-. now apply (Hw j). }
    destruct e as [t | t | | i net | i]; cbn [step] in Hs.
    + injection Hs as <-. now apply (Hw id).
    + injection Hs as <-. now apply (Hw id).
    + injection Hs as <-. simpl in Hen. apply negb_true_iff in Hen.
      refine (Hnew _ _ _ _ (settles_within_getRoute _ _ _) Hfl1).
      cbn [inflight]. now rewrite (consistent_enabled x Hc Hen).
    + destruct (find_call i (inflight x)) as [q|] eqn:Hf; [|discriminate Hs].
      destruct (consistent_find x i q Hc Hf) as [Hrem _].
      pose proof (Hold i q Hf) as Hq.
      destruct q; try discriminate Hs. injection Hs as <-.
      refine (Hnew x i _ Hrem _ Hfl1).
      apply (settles_within_mono _ 1 2); [lia | apply Hq].
    + destruct (find_call i (inflight x)) as [q|] eqn:Hf; [|discriminate Hs].
      destruct (consistent_find x i q Hc Hf) as [Hrem _].
      pose proof (Hold i q Hf) as Hq.
      destruct q; try discriminate Hs; injection Hs as <-;
        refine (Hnew x i _ Hrem _ Hfl1);
        (apply (settles_within_mono _ 1 2); [lia | apply Hq]).
Qed.

(** X9. Whenever the screen shows the spinner, a call of [getRoute] is in
    flight, and at most two settlements of that call, the one of [fetch]
    and the one of the body, whatever they carry, end it: then nothing is
    in flight and the loading flag is false again, so the button is
    enabled. No answer of the network leaves the screen loading. *)
Theorem every_call_comes_to_an_end
  (os : string) (es : list event) (x : Session) (net : exn + Response) :
  ui_run (initialSession os) es = Some x ->
  loading (app x) = true ->
  exists id p es' x',
    inflight x = [(id, p)] /\
    (length es' <= 2)%nat /\
    Forall (fun e => e = FetchSettled id net \/ e = BodySettled id) es' /\
    ui_run x es' = Some x' /\
    inflight x' = [] /\ loading (app x') = false /\ enabled x' Press = true.
Proof.
  intros Hrun Hl.
  pose proof (ui_run_consistent es _ x (consistent_initial os) Hrun) as Hc.
  assert (Hfl : exists id p, inflight x = [(id, p)]).
  { unfold consistent in Hc.
    destruct (inflight x) as [|[i p] [|c rest]]; [| | elim Hc].
    - destruct Hc as [H _]. congruence.
    - now exists i, p. }
  destruct Hfl as [id [p Hfl]].
  assert (Hp : settles_within 2 p).
  { assert (H0 : forall i q, inflight (initialSession os) = [(i, q)] ->
                             settles_within 2 q) by discriminate.
    exact (ui_run_settles es _ x (consistent_initial os) H0 Hrun id p Hfl). }
  destruct (drain 2 x id p net Hc Hfl Hp)
    as [es' [x' [Hlen [Hall [Hrun' [Hend Hl']]]]]].
  exists id, p, es', x'. repeat split; try assumption.
  simpl. now rewrite Hl'.
Qed.

Lemma every_call_comes_to_an_end_witness :
  exists id p es' x',
    inflight (mkSession "ios" (fst (submitted "ios" initialState))
                        [(0%nat, snd (run_segment
                                        (getRoute "ios" "UC Irvine"
                                                  "Irvine Spectrum Center")
                                        initialState))] 1)
    = [(id, p)] /\
    (length es' <= 2)%nat /\
    Forall (fun e => e = FetchSettled id unreachable \/ e = BodySettled id) es' /\
    ui_run (mkSession "ios" (fst (submitted "ios" initialState))
                      [(0%nat, snd (run_segment
                                      (getRoute "ios" "UC Irvine"
                                                "Irvine Spectrum Center")
                                      initialState))] 1)
           es' = Some x' /\
    inflight x' = [] /\ loading (app x') = false /\ enabled x' Press = true.
Proof.
  exact (every_call_comes_to_an_end
           "ios" [Press] _ unreachable eq_refl eq_refl).
Defined.

(** ** The presenter, continued *)

Lemma nth_error_last (A : Type) (xs : list A) (x : A) :
  nth_error (x :: xs) (length xs) = last (map Some (x :: xs)) None.
Proof.
  revert x. induction xs as [|y xs IH]; intros x; [reflexivity|].
  change (nth_error (y :: xs) (length xs)
          = last (map Some (y :: xs)) None).
  apply IH.
Qed.

(** [xs[xs.length - 1]] is the last element, and undefined on []. *)
Lemma at_index_last (A : Type) (xs : list A) :
  at_index xs (Z.of_nat (length xs) - 1) = last (map Some xs) None.
Proof.
  destruct xs as [|x xs]; [reflexivity|]. unfold at_index.
  replace (Z.of_nat (length (x :: xs)) - 1)%Z with (Z.of_nat (length xs))
    by (simpl length; lia).
  destruct (Z.ltb_spec (Z.of_nat (length xs)) 0) as [H|_]; [lia|].
  rewrite Nat2Z.id. apply nth_error_last.
Qed.

(** X10. The two markers are titled Origin and Destination and sit on the
    first and on the last point of the shortest route, whatever the safest
    route is; on a route of one point they coincide. A marker has no
    coordinate only when the shortest route is empty. *)
Theorem markers_are_first_and_last (r : RouteResult) :
  map title (routeMarkers r) = ["Origin"; "Destination"] /\
  map coordinate (routeMarkers r)
  = [hd_error (shortest_route r); last (map Some (shortest_route r)) None] /\
  (forall p, shortest_route r = [p] ->
             map coordinate (routeMarkers r) = [Some p; Some p]) /\
  (shortest_route r <> [] ->
   Forall (fun m => coordinate m <> None) (routeMarkers r)).
Proof.
  assert (H : map coordinate (routeMarkers r)
              = [hd_error (shortest_route r);
                 last (map Some (shortest_route r)) None]).
  { unfold routeMarkers. cbn [map coordinate]. rewrite at_index_last.
    destruct (shortest_route r); reflexivity. }
  split; [reflexivity|]. split; [exact H|]. split.
  - intros p Hp. rewrite H, Hp. reflexivity.
  - intros Hne. unfold routeMarkers.
    destruct (shortest_route r) as [|p ps]; [now elim Hne|].
    constructor; [simpl; discriminate|]. constructor; [|constructor].
    cbn [coordinate]. rewrite at_index_last, <- nth_error_last.
    apply nth_error_Some. simpl. lia.
Qed.

Lemma markers_are_first_and_last_witness :
  exists r,
    asRouteResult sampleRoute = Some r /\
    Forall (fun m => coordinate m <> None) (routeMarkers r).
Proof.
  eexists. split; [reflexivity|].
  refine (proj2 (proj2 (proj2 (markers_are_first_and_last _))) _).
  discriminate.
Defined.

(** X11. The map and the Origin marker agree: when the marker has a
    coordinate the initial region is centred on it, and when it has none
    the shortest route is empty and the region is the default one. *)
Theorem map_is_centred_on_the_origin_marker (r : RouteResult) :
  let m := mapView (resultPanelFor r) in
  match map coordinate (markers m) with
  | Some c :: _ =>
      Region.latitude (initialRegion m) = latitude c /\
      Region.longitude (initialRegion m) = longitude c
  | None :: _ =>
      shortest_route r = [] /\
      initialRegion m = Region.mk 33.64 (-117.84) 0.05 0.05
  | [] => False
  end.
Proof.
  unfold resultPanelFor, routeMarkers. cbn [mapView markers initialRegion map coordinate].
  destruct (shortest_route r) as [|p ps]; simpl; split; reflexivity.
Qed.

(** The screen at rest. In every state in which a handler has returned to
    the event loop, the rendered tree shows at most one of the spinner,
    the error text and the result panel; the button is disabled exactly
    while the spinner shows, and the panel exists only while a result is
    stored. *)
Theorem screen_shows_one_thing
  (os : string) (es : list event) (x : Session) (screen : Screen) :
  ui_run (initialSession os) es = Some x ->
  App (app x) = Some screen ->
  buttonDisabled screen = loadingOverlay screen /\
  (loadingOverlay screen = true ->
   errorText screen = None /\ resultPanel screen = None) /\
  (errorText screen <> None ->
   resultPanel screen = None /\ loadingOverlay screen = false) /\
  (resultPanel screen <> None ->
   errorText screen = None /\ loadingOverlay screen = false) /\
  (resultPanel screen <> None <-> result (app x) <> JNull).
Proof.
  intros Hrun HA.
  pose proof (ui_run_consistent es _ x (consistent_initial os) Hrun) as Hc.
  destruct (variant_cells _ (consistent_variant x Hc)) as [Hl [Hr He]].
  destruct (App_parts _ _ HA) as [_ [_ [Hb [Ho [_ [Het Hp]]]]]].
  rewrite Hb, Ho, Het. split; [reflexivity|]. split; [|split; [|split]].
  - intros H. destruct (Hl H) as [H1 H2]. rewrite H2.
    split; [reflexivity | now apply Hp].
  - intros H.
    assert (Hne : err (app x) <> None) by (intros E; now rewrite E in H).
    destruct (He Hne) as [H1 H2]. split; [now apply Hp | exact H2].
  - intros H.
    assert (Hne : result (app x) <> JNull) by (intros E; now apply H, Hp).
    destruct (Hr Hne) as [H1 H2]. now rewrite H1.
  - split; intros H E; apply H; now apply Hp.
Qed.

Lemma screen_shows_one_thing_witness :
  exists x screen,
    ui_run (initialSession "ios") (Press :: settle 0 (error500 "internal error"))
    = Some x /\
    App (app x) = Some screen /\
    errorText screen = Some "500 Internal Server Error – internal error" /\
    (errorText screen <> None ->
     resultPanel screen = None /\ loadingOverlay screen = false).
Proof.
  eexists. eexists. split; [reflexivity|]. split; [reflexivity|].
  split; [reflexivity|].
  exact (proj1 (proj2 (proj2 (screen_shows_one_thing
                                "ios"
                                (Press :: settle 0 (error500 "internal error"))
                                _ _ eq_refl eq_refl)))).
Defined.

(** ** From the response to the screen *)

(** X13. After a successful response whose body reads as a route result
    [r], the screen shows the two inputs as they are, the button enabled
    under its idle title, no spinner, no error, and the panel of [r]: one
    polyline per route, with the coordinates in the order they were
    received, none dropped and none added. *)
Theorem successful_call_shows_the_routes
  (os : string) (s : AppState) (res : Response) (v : json) (r : RouteResult) :
  (200 <= status res <= 299)%N ->
  json_body res = inr v -> asRouteResult v = Some r ->
  App (lifecycle os (inr res) s)
  = Some (mkScreen (origin s) (dest s) "Get Route" false false None
                   (Some (resultPanelFor r))) /\
  map coordinates (polylines (mapView (resultPanelFor r)))
  = [shortest_route r; safest_route r] /\
  map strokeColor (polylines (mapView (resultPanelFor r))) = ["blue"; "green"].
Proof.
  intros Hst Hv Hr. apply ok_true_iff in Hst.
  rewrite (lifecycle_parsed os s res v Hst Hv).
  split; [|split; reflexivity].
  exact (App_with_result (mkAppState (origin s) (dest s) v false None) r Hr).
Qed.

Lemma successful_call_shows_the_routes_witness :
  exists r,
    asRouteResult sampleRoute = Some r /\
    App (lifecycle "ios" (ok200 sampleRoute) initialState)
    = Some (mkScreen "UC Irvine" "Irvine Spectrum Center" "Get Route"
                     false false None (Some (resultPanelFor r))).
Proof.
  eexists. split; [reflexivity|].
  refine (proj1 (successful_call_shows_the_routes
                   "ios" initialState
                   (mkResponse 200 "OK" (inl noBody) (inr sampleRoute))
                   sampleRoute _ _ eq_refl eq_refl)).
  simpl. lia.
Defined.

(** X14. After a call that stored an error, the screen shows that message
    as its error text, with no panel and no spinner, and the button is
    enabled again for the next attempt: nothing is retried by itself. *)
Theorem failed_call_shows_its_message
  (os : string) (net : exn + Response) (s : AppState) (msg : string) :
  err (lifecycle os net s) = Some msg ->
  App (lifecycle os net s)
  = Some (mkScreen (origin s) (dest s) "Get Route" false false (Some msg) None).
Proof.
  destruct (lifecycle_cases os net s) as [[v [-> _]] | [m [-> [Hm _]]]];
    cbn [err]; intros H; [discriminate H|].
  injection H as ->. destruct msg as [|c rest]; [now elim Hm | reflexivity].
Qed.

Lemma failed_call_shows_its_message_witness :
  App (lifecycle "ios" unreachable initialState)
  = Some (mkScreen "UC Irvine" "Irvine Spectrum Center" "Get Route"
                   false false (Some "Network request failed") None).
Proof.
  exact (failed_call_shows_its_message
           "ios" unreachable initialState "Network request failed" eq_refl).
Defined.

(** ** The backend address *)

(** X16. Every request is a POST of JSON to the path /route of one of two
    hosts: the emulator address exactly when the platform string is
    android, written so, and the LAN address for every other platform. *)
Theorem emulator_address_only_on_android (os origin dest : string) :
  let req := routeRequest os origin dest in
  method req = "POST" /\
  headers req = [("Content-Type", "application/json")] /\
  (url req = "http://10.0.2.2:8000/route" <-> os = "android") /\
  (url req = "http://192.168.1.130:8000/route" <-> os <> "android").
Proof.
  unfold routeRequest, BASE_URL. cbn [method headers url].
  split; [reflexivity|]. split; [reflexivity|].
  destruct (String.eqb_spec os "android") as [->|Hne];
    cbv [BACKEND_ANDROID_EMULATOR BACKEND_LAN append]; split; split; intros H;
    try reflexivity; try discriminate H; try assumption;
    try (now elim H); now elim Hne.
Qed.

(* ================================================================== *)
(** * Every state, setter by setter *)




Lemma variant_passable (s : AppState) :
  fetchState s <> None -> variant_or_transient s.
Proof. intros H. now left. Qed.


















(** ** Two remarks on overlapping calls and on unvalidated bodies *)

(** The second call may also be started after the first response has
    arrived and while its body is still being read: the outcome is the
    same, the first call writes last. *)
Lemma late_second_press_same_outcome
  (os : string) (s : AppState) (resA : Response) (netB : exn + Response) :
  exists x,
    run (mkSession os s [] 0)
        (Press :: FetchSettled 0 (inr resA) :: Press
           :: (settle 1 netB ++ [BodySettled 0])%list) = Some x /\
    inflight x = [] /\ loading (app x) = false /\
    (err (lifecycle os (inr resA) s) = None ->
     result (app x) = result (lifecycle os (inr resA) s) /\
     err (app x) = err (lifecycle os netB s)) /\
    (err (lifecycle os (inr resA) s) <> None ->
     err (app x) = err (lifecycle os (inr resA) s) /\
     result (app x) = result (lifecycle os netB s)).
Proof.
  destruct netB as [eB|resB]; unfold run, lifecycle; crank;
    (eexists; split; [reflexivity|]);
    (split; [reflexivity|]); (split; [reflexivity|]);
    split; intros H; try discriminate H; try (now elim H);
    split; reflexivity.
Qed.

(** A body that lacks the score only is stored like any other, and the
    screen of that state is left undescribed, since the value is no route
    result. *)
Example missing_score_is_stored :
  let v := JObject [("shortest_distance_m", JNumber 5200);
                    ("safest_distance_m", JNumber 5800);
                    ("shortest_route", JArray [point 33.6405 (-117.8443)]);
                    ("safest_route", JArray [point 33.6405 (-117.8443)])] in
  has_required_fields v = false /\
  fetchState (lifecycle "ios" (ok200 v) initialState) = Some (Success v) /\
  asRouteResult v = None.
Proof. repeat split. Qed.
